(** * windash-agent: the resilient streaming transport ([internal/ws])

    A shallow embedding of [internal/ws/backpressure.go] and
    [internal/ws/client.go], and the properties of the bounded relay buffer,
    the reconnect supervisor, the batch writer and the control-message reader.

    Conventions.
    - Go [int] and [time.Duration] values are integers of [Z]; the [uint64]
      drop counter is a [Z] reduced modulo [2^64] at every increment.
    - A buffered channel is its capacity and the list of queued elements,
      oldest first.  A [select] with a [default] arm is a non-blocking
      attempt; a [select] without one may block, which the outcome type of
      the [Go] monad below makes explicit.
    - The buffer stores pointers [*metrics.SampleV1] and never looks behind
      them, so the element type is a parameter [Sample].
    - The logger is an output stream: every call of [logger.Warn] and the
      like appends one [LogEntry]. *)

From Stdlib Require Import ZArith QArith Qround Lia Lqa SpecFloat.
From stdpp Require Import base list strings.

Local Open Scope Z_scope.

(** ** Logging (zap's sugared logger, seen as an output stream) *)

Inductive Level := DebugLevel | InfoLevel | WarnLevel.

Inductive LogArg :=
| LStr (s : string)
| LInt (z : Z).

(** One call [logger.<Level>(args...)]. *)
Record LogEntry := Log { log_level : Level; log_args : list LogArg }.

(** ** Machine integers *)

Definition uint64_modulus : Z := 2 ^ 64.

(** [x++] on a [uint64]. *)
Definition uint64_incr (x : Z) : Z := (x + 1) mod uint64_modulus.

(** * backpressure.go *)

Module Backpressure.

Section WithSample.

Context {Sample : Type}.

(** [chan *metrics.SampleV1] with its capacity. *)
Record Chan := mkChan { chan_cap : Z; chan_queue : list Sample }.

(** [len(ch)] *)
Definition chan_len (c : Chan) : Z := Z.of_nat (length (chan_queue c)).

(** [make(chan *metrics.SampleV1, size)]: panics on a negative size. *)
Definition make_chan (size : Z) : option Chan :=
  if size <? 0 then None else Some (mkChan size []).

(** A send that does not wait: succeeds when the queue has a free slot.
    (No receiver is parked on the channel in this sequential view, so a
    channel of capacity 0 never accepts a non-blocking send.) *)
Definition chan_try_send (c : Chan) (x : Sample) : option Chan :=
  if chan_len c <? chan_cap c
  then Some (mkChan (chan_cap c) (chan_queue c ++ [x]))
  else None.

(** A receive that does not wait: takes the oldest element, if any. *)
Definition chan_try_recv (c : Chan) : option (Sample * Chan) :=
  match chan_queue c with
  | [] => None
  | x :: q => Some (x, mkChan (chan_cap c) q)
  end.

(** [type BackpressureBuffer struct].  The [logger] is the output stream of
    the monad below; [mu] guards [dropped] and has no state of its own in a
    sequential run. *)
Record BackpressureBuffer := mkBuffer {
  buffer : Chan;
  bufferSize : Z;
  dropped : Z
}.

(** [NewBackpressureBuffer(logger, size)] *)
Definition NewBackpressureBuffer (size : Z) : option BackpressureBuffer :=
  match make_chan size with
  | Some ch => Some (mkBuffer ch size 0)
  | None => None
  end.

(** ** A monad for the methods of the buffer

    A method either returns (with a value, the buffer it leaves, the log
    lines it wrote and the number of primitive operations it ran), or is
    parked on a channel operation that cannot proceed, or panics. *)

Inductive Outcome (A : Type) :=
| Returned (a : A) (b : BackpressureBuffer) (log : list LogEntry) (steps : nat)
| Blocked
| Panicked.

Arguments Returned {A} a b log steps.
Arguments Blocked {A}.
Arguments Panicked {A}.

Definition Go (A : Type) : Type := BackpressureBuffer -> Outcome A.

Definition ret {A} (a : A) : Go A := fun b => Returned a b [] 0%nat.

Definition bind {A B} (f : A -> Go B) (m : Go A) : Go B :=
  fun b =>
    match m b with
    | Returned a b1 log1 n1 =>
        match f a b1 with
        | Returned r b2 log2 n2 => Returned r b2 (log1 ++ log2) (n1 + n2)%nat
        | Blocked => Blocked
        | Panicked => Panicked
        end
    | Blocked => Blocked
    | Panicked => Panicked
    end.

#[global] Instance Go_ret : MRet Go := @ret.
#[global] Instance Go_bind : MBind Go := @bind.

(** *** Primitive operations, one step each *)

(** [select { case b.buffer <- sample: ... default: ... }]; the result tells
    which arm ran. *)
Definition select_send_default (sample : Sample) : Go bool :=
  fun b =>
    match chan_try_send (buffer b) sample with
    | Some ch => Returned true (mkBuffer ch (bufferSize b) (dropped b)) [] 1%nat
    | None => Returned false b [] 1%nat
    end.

(** [select { case sample := <-b.buffer: ... default: ... }] *)
Definition select_recv_default : Go (option Sample) :=
  fun b =>
    match chan_try_recv (buffer b) with
    | Some (x, ch) => Returned (Some x) (mkBuffer ch (bufferSize b) (dropped b)) [] 1%nat
    | None => Returned None b [] 1%nat
    end.

(** [select { case sample := <-b.buffer: ... case <-ctx.Done(): ... }].
    [done] tells whether the context is cancelled.  When both arms can
    proceed Go picks one at random: [pick_done] is that choice.  When none
    can, the goroutine is parked.  [None] stands for the [ctx.Done()] arm. *)
Definition select_recv_done (done pick_done : bool) : Go (option Sample) :=
  fun b =>
    match chan_try_recv (buffer b) with
    | Some (x, ch) =>
        if done && pick_done
        then Returned None b [] 1%nat
        else Returned (Some x) (mkBuffer ch (bufferSize b) (dropped b)) [] 1%nat
    | None => if done then Returned None b [] 1%nat else Blocked
    end.

(** [b.mu.Lock(); b.dropped++; droppedCount := b.dropped; b.mu.Unlock()] *)
Definition incr_dropped : Go Z :=
  fun b =>
    let d := uint64_incr (dropped b) in
    Returned d (mkBuffer (buffer b) (bufferSize b) d) [] 1%nat.

(** [b.logger.Warn(args...)] *)
Definition warn (args : list LogArg) : Go unit :=
  fun b => Returned tt b [Log WarnLevel args] 1%nat.

(** [make([]*metrics.SampleV1, 0, maxCount)]: panics on a negative
    capacity. *)
Definition make_slice (maxCount : Z) : Go (list Sample) :=
  fun b => if maxCount <? 0 then Panicked else Returned [] b [] 1%nat.

(** *** The methods *)

Definition failed_to_add : list LogArg :=
  [LStr "⚠️  Failed to add sample even after dropping oldest"].

Definition backpressure_warning (droppedCount : Z) : list LogArg :=
  [LStr "⚠️  Backpressure: dropped samples"; LStr "totalDropped"; LInt droppedCount].

(** [func (b *BackpressureBuffer) Push(sample *metrics.SampleV1)] *)
Definition Push (sample : Sample) : Go unit :=
  sent ← select_send_default sample;
  if sent : bool then mret tt
  else
    droppedCount ← incr_dropped;
    select_recv_default;;
    sent' ← select_send_default sample;
    (if sent' : bool then mret tt else warn failed_to_add);;
    if droppedCount mod 10 =? 0
    then warn (backpressure_warning droppedCount)
    else mret tt.

(** The loop [for i := 1; i < maxCount; i++ { select { recv / default:
    return samples } }], by the number [n] of iterations left. *)
Fixpoint PopBatch_loop (n : nat) (samples : list Sample) : Go (list Sample) :=
  match n with
  | O => mret samples
  | S n' =>
      r ← select_recv_default;
      match r with
      | Some sample => PopBatch_loop n' (samples ++ [sample])
      | None => mret samples
      end
  end.

(** [func (b *BackpressureBuffer) PopBatch(ctx, maxCount) []*metrics.SampleV1];
    [None] is the [nil] slice. *)
Definition PopBatch (done pick_done : bool) (maxCount : Z)
  : Go (option (list Sample)) :=
  samples ← make_slice maxCount;
  first ← select_recv_done done pick_done;
  match first with
  | None => mret None
  | Some sample =>
      batch ← PopBatch_loop (Z.to_nat (maxCount - 1)) (samples ++ [sample]);
      mret (Some batch)
  end.

(** [func (b *BackpressureBuffer) Len() int] *)
Definition Len (b : BackpressureBuffer) : Z := chan_len (buffer b).

(** [func (b *BackpressureBuffer) DroppedCount() uint64] *)
Definition DroppedCount (b : BackpressureBuffer) : Z := dropped b.

(** Pushing a list of records one after the other, no consumer in between. *)
Fixpoint push_all (l : list Sample) : Go unit :=
  match l with
  | [] => mret tt
  | sample :: l' => Push sample;; push_all l'
  end.

(** ** Runs of the buffer *)

(** A producer and a consumer call the buffer one call at a time. *)
Inductive Op :=
| OpPush (sample : Sample)
| OpPopBatch (done pick_done : bool) (maxCount : Z).

(** The records handed to [Push], in call order. *)
Definition pushed (ops : list Op) : list Sample :=
  flat_map (fun op => match op with OpPush s => [s] | OpPopBatch _ _ _ => [] end) ops.

(** What a run has come to: the buffer, the records the [PopBatch] calls
    returned so far, batch after batch, and how many calls of [Push] moved
    the drop counter. *)
Record Trace := mkTrace {
  tr_buffer : BackpressureBuffer;
  tr_delivered : list Sample;
  tr_evictions : nat
}.

(** Runs the calls in order.  A call that is parked or panics has returned
    nothing and has left the buffer as it was. *)
Fixpoint run (ops : list Op) (tr : Trace) : Trace :=
  match ops with
  | [] => tr
  | OpPush s :: ops' =>
      match Push s (tr_buffer tr) with
      | Returned _ b' _ _ =>
          let moved := if DroppedCount b' =? DroppedCount (tr_buffer tr)
                       then 0%nat else 1%nat in
          run ops' (mkTrace b' (tr_delivered tr) (tr_evictions tr + moved))
      | _ => run ops' tr
      end
  | OpPopBatch done pick maxCount :: ops' =>
      match PopBatch done pick maxCount (tr_buffer tr) with
      | Returned (Some batch) b' _ _ =>
          run ops' (mkTrace b' (tr_delivered tr ++ batch) (tr_evictions tr))
      | Returned None b' _ _ =>
          run ops' (mkTrace b' (tr_delivered tr) (tr_evictions tr))
      | _ => run ops' tr
      end
  end.

(** What a trace still accounts for: delivered, then queued. *)
Definition retained (tr : Trace) : list Sample :=
  tr_delivered tr ++ chan_queue (buffer (tr_buffer tr)).

(** The states of a buffer built with capacity [size]: whatever goroutines
    share it, each of them touches it through the primitive operations
    only, one at a time. *)
Inductive reachable (size : Z) : BackpressureBuffer -> Prop :=
| reach_new b :
    NewBackpressureBuffer size = Some b -> reachable size b
| reach_send b sample sent b' log n :
    reachable size b ->
    select_send_default sample b = Returned sent b' log n ->
    reachable size b'
| reach_recv b r b' log n :
    reachable size b ->
    select_recv_default b = Returned r b' log n ->
    reachable size b'
| reach_recv_done b done pick r b' log n :
    reachable size b ->
    select_recv_done done pick b = Returned r b' log n ->
    reachable size b'
| reach_incr b d b' log n :
    reachable size b ->
    incr_dropped b = Returned d b' log n ->
    reachable size b'.

(** Does the log hold the backpressure warning? *)
Definition is_backpressure_warning (e : LogEntry) : bool :=
  match e with
  | Log WarnLevel [LStr msg; LStr "totalDropped"; LInt _] =>
      String.eqb msg "⚠️  Backpressure: dropped samples"
  | _ => false
  end.

(** The buffer [b] with another queue. *)
Definition with_queue (b : BackpressureBuffer) (q : list Sample) : BackpressureBuffer :=
  mkBuffer (mkChan (chan_cap (buffer b)) q) (bufferSize b) (dropped b).

(** A method that leads from reachable states to reachable states. *)
Definition preserves {A} (size : Z) (m : Go A) : Prop :=
  forall b r b' log n,
    reachable size b -> m b = Returned r b' log n -> reachable size b'.

(** The warning cadence of the specification, read literally: [Push] logs the
    backpressure warning exactly when it dropped a record and the counter
    it then shows is a positive multiple of 10. *)
Definition warning_on_positive_multiples : Prop :=
  forall size b sample b' log n,
    reachable size b ->
    Push sample b = Returned tt b' log n ->
    (existsb is_backpressure_warning log = true
     <-> chan_cap (buffer b) <= Len b
         /\ 0 < DroppedCount b' /\ DroppedCount b' mod 10 = 0).

(** How many backpressure warnings a log holds. *)
Definition backpressure_warnings (log : list LogEntry) : nat :=
  length (List.filter is_backpressure_warning log).

End WithSample.

Arguments Chan : clear implicits.
Arguments BackpressureBuffer : clear implicits.
Arguments Outcome : clear implicits.
Arguments Go : clear implicits.
Arguments Op : clear implicits.
Arguments Trace : clear implicits.
Arguments Returned {Sample A} a b log steps.
Arguments Blocked {Sample A}.
Arguments Panicked {Sample A}.

End Backpressure.

(** * messages.go and client.go *)

Module Client.

(** ** Constants of client.go *)

(** [time.Duration] counts nanoseconds. *)
Definition Second : Z := 1000000000.
Definition Minute : Z := 60 * Second.
Definition Millisecond : Z := 1000000.

Definition writeWait : Z := 10 * Second.
Definition pongWait : Z := 60 * Second.
Definition pingPeriod : Z := 10 * Second.
Definition maxMessageSize : Z := 512 * 1024.

Definition initialBackoff : Z := 1 * Second.
Definition maxBackoff : Z := 2 * Minute.
Definition backoffFactor : Q := 2.
Definition jitter : Q := 2 # 10.

Definition bufferSize : Z := 100.
Definition batchSize : Z := 10.

(** ** [float64], read over the rationals

    The two [float64] expressions of client.go are modelled with exact
    rational arithmetic.  For the stored backoff this loses nothing: every
    value involved is an integer below [2^53] and the factor is 2, so the
    binary64 operations are exact (checked against the IEEE model of the
    standard library in [Binary64] below).  For the jitter the model is
    the real-number reading of the expression, without the rounding of
    each operation. *)

(** [float64(d)] *)
Definition float64_of_Duration (d : Z) : Q := inject_Z d.

(** [time.Duration(x)]: conversion to an integer truncates toward zero. *)
Definition Duration_of_float64 (x : Q) : Z := Z.quot (Qnum x) (Zpos (Qden x)).

(** [func addJitter(duration time.Duration, jitter float64) time.Duration];
    [r] is the value [rand.Float64()] returns, a number in [[0, 1)]. *)
Definition jitter_multiplier (jitter r : Q) : Q := (1 + (r * 2 - 1) * jitter)%Q.

Definition addJitter (duration : Z) (jitter : Q) (r : Q) : Z :=
  let multiplier := jitter_multiplier jitter r in
  Duration_of_float64 (float64_of_Duration duration * multiplier)%Q.

(** [backoff = time.Duration(float64(backoff) * backoffFactor);
     if backoff > maxBackoff { backoff = maxBackoff }] *)
Definition grow_backoff (backoff : Z) : Z :=
  let backoff' := Duration_of_float64 (float64_of_Duration backoff * backoffFactor)%Q in
  if backoff' >? maxBackoff then maxBackoff else backoff'.

(** ** The supervisor loop of [Run]

    What one turn of the loop meets: the context is cancelled; or [connect]
    fails (and [addJitter] draws [r]); or [connect] succeeds and the session
    runs until it ends. *)
Inductive Attempt :=
| CtxCancelled
| ConnectFails (err : string) (r : Q)
| ConnectSucceeds.

(** What the supervisor does that can be observed from outside. *)
Inductive Action :=
| Logged (e : LogEntry)
| Slept (d : Z)
| RanSession.

(** The state of [Run]: the local variable [backoff], whether the function
    has returned, and what it has done so far. *)
Record RunState := mkRun {
  backoff : Z;
  returned : bool;
  actions : list Action
}.

(** One turn of [for { ... }]. *)
Definition Run_step (st : RunState) (a : Attempt) : RunState :=
  if returned st then st
  else
    match a with
    | CtxCancelled =>
        mkRun (backoff st) true
          (actions st ++ [Logged (Log InfoLevel [LStr "🌐 WebSocket client stopped"])])
    | ConnectFails err r =>
        let jitteredBackoff := addJitter (backoff st) jitter r in
        mkRun (grow_backoff (backoff st)) false
          (actions st
           ++ [Logged (Log WarnLevel [LStr "Failed to connect to WebSocket"; LStr "error";
                                      LStr err; LStr "retryIn"; LInt (backoff st)]);
               Slept jitteredBackoff])
    | ConnectSucceeds =>
        mkRun initialBackoff false
          (actions st
           ++ [Logged (Log InfoLevel [LStr "✅ Connected to WebSocket"]);
               RanSession;
               Logged (Log WarnLevel [LStr "🔄 WebSocket disconnected, reconnecting..."])])
    end.

(** [func (c *Client) Run(ctx, sampleChan)], along the attempts it meets. *)
Definition Run (attempts : list Attempt) : RunState :=
  fold_left Run_step attempts
    (mkRun initialBackoff false
       [Logged (Log InfoLevel [LStr "🌐 WebSocket client starting"])]).

(** The delays slept, in order. *)
Definition sleeps (acts : list Action) : list Z :=
  flat_map (fun a => match a with Slept d => [d] | _ => [] end) acts.

(** The attempts with their random draws forgotten. *)
Definition forget_draw (a : Attempt) : Attempt :=
  match a with ConnectFails err _ => ConnectFails err 0 | _ => a end.

(** The schedule of the specification: [min (2^k seconds) (2 minutes)]. *)
Definition schedule (k : nat) : Z := Z.min (2 ^ Z.of_nat k * Second) maxBackoff.

(** ** messages.go, and the wire *)

(** [type ControlMessage struct] *)
Record ControlMessage := mkControl {
  ctrl_Type : string;
  ctrl_IntervalMs : Z
}.

(** A JSON document, as a tree. *)
#[local] Unset Elimination Schemes.
Inductive JSON :=
| JNull
| JBool (b : bool)
| JNumber (z : Z)
| JString (s : string)
| JArray (items : list JSON)
| JObject (fields : list (string * JSON)).
#[local] Set Elimination Schemes.

(** What [c.conn] has been asked to write. *)
Inductive Frame :=
| CloseFrame (code : Z) (text : string)
| PingFrame
| TextFrame (data : JSON).

(** [*websocket.Conn]: the frames written to it so far. *)
Record Conn := mkConn { written : list Frame }.

(** How [readLoop], [writeLoop] end. *)
Inductive Exit :=
| StillRunning      (* the script is over, the loop has not returned *)
| Parked            (* waiting in [PopBatch] *)
| ExitCancelled     (* [<-ctx.Done()] *)
| ExitReadError
| ExitPingFailed
| ExitSendFailed
| ExitPanicked.     (* [c.conn] is nil *)

(** A loop that has returned has run its [defer cancel()]: the session is
    over. *)
Definition session_ended (e : Exit) : bool :=
  match e with
  | StillRunning | Parked => false
  | _ => true
  end.

(** The wire shape [{ "type": "metrics", "samples": [...] }]. *)
Definition envelope (samples : list JSON) : JSON :=
  JObject [("type", JString "metrics"); ("samples", JArray samples)].

(** What one turn of [readLoop] gets from [c.conn.ReadMessage()]. *)
Inductive ReadEvent :=
| ReadError (err : string)
| ReadMessage (message : string).

(** [metrics.Collector], as far as the sampling configuration goes. *)
Record Collector := mkCollector {
  collector_hostID : string;
  collector_interval : Z
}.

Section WithSample.

Context {Sample : Type}.

(** [type AgentMessage struct] *)
Record AgentMessage := mkAgentMessage {
  msg_Type : string;
  msg_Samples : list Sample
}.

(** [type Client struct]; [conn] is [None] when the pointer is nil. *)
Record Client := mkClient {
  apiURL : string;
  token : string;
  hostID : string;
  conn : option Conn;
  buffer : Backpressure.BackpressureBuffer Sample
}.

(** [encoding/json], which is not part of the repository: how one sample is
    encoded (it can fail, for instance on a NaN), and how an inbound frame
    is decoded into a [ControlMessage] (or the error). *)
Variable marshalSample : Sample -> option JSON.
Variable unmarshal : string -> ControlMessage + string.

(** [json.Marshal(msg)] for an [AgentMessage]: [samples] has [omitempty]. *)
Definition marshal_AgentMessage (msg : AgentMessage) : option JSON :=
  match mapM marshalSample (msg_Samples msg) with
  | Some samples =>
      Some (JObject (("type", JString (msg_Type msg))
                     :: match samples with
                        | [] => []
                        | _ => [("samples", JArray samples)]
                        end))
  | None => None
  end.

Definition with_buffer (c : Client) (b : Backpressure.BackpressureBuffer Sample) : Client :=
  mkClient (apiURL c) (token c) (hostID c) (conn c) b.

(** [c.conn.WriteMessage(...)] / [c.conn.WriteControl(...)]: [None] is the
    nil-pointer panic; otherwise the client after the call and whether the
    call succeeded ([ok] is what the network decides). *)
Definition conn_write (c : Client) (f : Frame) (ok : bool) : option (Client * bool) :=
  match conn c with
  | None => None
  | Some cn =>
      if ok
      then Some (mkClient (apiURL c) (token c) (hostID c)
                   (Some (mkConn (written cn ++ [f]))) (buffer c), true)
      else Some (c, false)
  end.

(** [func (c *Client) sendSamples(samples) error]; the error is [Some]. *)
Definition sendSamples (c : Client) (samples : list Sample) (ok : bool)
  : option (Client * option string) :=
  let msg := mkAgentMessage "metrics" samples in
  match marshal_AgentMessage msg with
  | None => Some (c, Some "failed to marshal samples")
  | Some data =>
      match conn_write c (TextFrame data) ok with
      | Some (c', true) => Some (c', None)
      | Some (c', false) => Some (c', Some "failed to write message")
      | None => None
      end
  end.

(** [func (c *Client) handleControlMessage(msg *ControlMessage)] *)
Definition handleControlMessage (c : Client) (msg : ControlMessage)
  : Client * list LogEntry :=
  let received :=
    Log InfoLevel [LStr "📥 Received control message"; LStr "type"; LStr (ctrl_Type msg)] in
  if String.eqb (ctrl_Type msg) "setRate" then
    (c, [received;
         Log InfoLevel [LStr "🔧 [TODO] Change metrics interval"; LStr "intervalMs";
                        LInt (ctrl_IntervalMs msg)]])
  else if String.eqb (ctrl_Type msg) "pause" then
    (c, [received; Log InfoLevel [LStr "⏸️  [TODO] Pause metrics collection"]])
  else if String.eqb (ctrl_Type msg) "resume" then
    (c, [received; Log InfoLevel [LStr "▶️  [TODO] Resume metrics collection"]])
  else
    (c, [received;
         Log WarnLevel [LStr "Unknown control message type"; LStr "type"; LStr (ctrl_Type msg)]]).

(** Puts log lines in front of what the rest of a loop produced. *)
Definition and_then (log : list LogEntry) (r : Client * list LogEntry * Exit)
  : Client * list LogEntry * Exit :=
  (r.1.1, log ++ r.1.2, r.2).

(** [func (c *Client) readLoop(ctx, cancel)], along a script: for each
    turn, whether the context is cancelled at the top of the loop, and what
    [ReadMessage] returns. *)
Fixpoint readLoop (script : list (bool * ReadEvent)) (c : Client)
  : Client * list LogEntry * Exit :=
  match script with
  | [] => (c, [], StillRunning)
  | (done, ev) :: script' =>
      if done : bool then (c, [], ExitCancelled)
      else
        match conn c with
        | None => (c, [], ExitPanicked)
        | Some _ =>
            match ev with
            | ReadError err =>
                (c, [Log WarnLevel [LStr "WebSocket read error"; LStr "error"; LStr err]],
                 ExitReadError)
            | ReadMessage message =>
                match unmarshal message with
                | inr err =>
                    and_then
                      [Log WarnLevel [LStr "Failed to parse control message";
                                      LStr "error"; LStr err]]
                      (readLoop script' c)
                | inl ctrl =>
                    let '(c', log) := handleControlMessage c ctrl in
                    and_then log (readLoop script' c')
                end
            end
        end
  end.

(** The arm the [select] of [writeLoop] takes. *)
Inductive SelectArm := ArmDone | ArmTicker | ArmDefault.

(** What one turn of [writeLoop] meets. *)
Record Turn := mkTurn {
  turn_pushed : list Sample;  (* what [bufferSamples] pushed since the last turn *)
  turn_arm : SelectArm;
  turn_done : bool;           (* for [PopBatch]: is the context cancelled? *)
  turn_pick : bool;           (* for [PopBatch]: the choice when both arms are ready *)
  turn_write_ok : bool        (* does the write of this turn succeed? *)
}.

(** [bufferSamples]: every record of the collector channel goes through
    [Push]. *)
Definition feed (l : list Sample) (c : Client) : Client * list LogEntry :=
  match Backpressure.push_all l (buffer c) with
  | Backpressure.Returned _ b' log _ => (with_buffer c b', log)
  | _ => (c, [])
  end.

(** [func (c *Client) writeLoop(ctx, cancel)], along a script.  (The
    deadlines set before each write show only in whether the write
    succeeds; the 100 ms sleep of the idle arm changes no state.) *)
Fixpoint writeLoop (script : list Turn) (c : Client)
  : Client * list LogEntry * Exit :=
  match script with
  | [] => (c, [], StillRunning)
  | t :: script' =>
      let '(c1, log1) := feed (turn_pushed t) c in
      and_then log1
        match turn_arm t with
        | ArmDone =>
            match conn_write c1 (CloseFrame 1000 "") (turn_write_ok t) with
            | Some (c2, _) => (c2, [], ExitCancelled)
            | None => (c1, [], ExitPanicked)
            end
        | ArmTicker =>
            match conn_write c1 PingFrame (turn_write_ok t) with
            | Some (c2, true) =>
                and_then [Log DebugLevel [LStr "📡 Sent ping"]] (writeLoop script' c2)
            | Some (c2, false) =>
                (c2, [Log WarnLevel [LStr "Failed to send ping"; LStr "error"]],
                 ExitPingFailed)
            | None => (c1, [], ExitPanicked)
            end
        | ArmDefault =>
            match Backpressure.PopBatch (turn_done t) (turn_pick t) batchSize (buffer c1) with
            | Backpressure.Returned r b2 log2 _ =>
                let samples := match r with Some l => l | None => [] end in
                let c2 := with_buffer c1 b2 in
                if 0 <? Z.of_nat (length samples) then
                  match sendSamples c2 samples (turn_write_ok t) with
                  | Some (c3, None) =>
                      and_then
                        (log2 ++ [Log DebugLevel
                                    [LStr "📤 Sent samples"; LStr "count";
                                     LInt (Z.of_nat (length samples)); LStr "buffered";
                                     LInt (Backpressure.Len (buffer c3))]])
                        (writeLoop script' c3)
                  | Some (c3, Some err) =>
                      (c3, log2 ++ [Log WarnLevel [LStr "Failed to send samples";
                                                    LStr "error"; LStr err]],
                       ExitSendFailed)
                  | None => (c2, log2, ExitPanicked)
                  end
                else and_then log2 (writeLoop script' c2)
            | Backpressure.Blocked => (c1, [], Parked)
            | Backpressure.Panicked => (c1, [], ExitPanicked)
            end
        end
  end.

(** A frame the writer may send: a close, a ping, or one metrics envelope
    that holds the encodings of between 1 and 10 records. *)
Definition writer_frame (f : Frame) : Prop :=
  match f with
  | TextFrame data =>
      exists batch samples,
        data = envelope samples
        /\ mapM marshalSample batch = Some samples
        /\ (1 <= length batch <= 10)%nat
  | _ => True
  end.

(** The agent of [main]: the collector and the client, side by side. *)
Record Agent := mkAgent {
  agent_collector : Collector;
  agent_client : Client
}.

(** A control message reaches the agent through its client. *)
Definition Agent_handleControlMessage (a : Agent) (msg : ControlMessage)
  : Agent * list LogEntry :=
  let '(c', log) := handleControlMessage (agent_client a) msg in
  (mkAgent (agent_collector a) c', log).

End WithSample.

Arguments Client : clear implicits.
Arguments AgentMessage : clear implicits.
Arguments Turn : clear implicits.
Arguments Agent : clear implicits.

(** A toy encoder and a toy decoder, to run the loops on. *)
Definition toy_marshal (z : Z) : option JSON := Some (JNumber z).

Definition toy_unmarshal (message : string) : ControlMessage + string :=
  if String.eqb message "reboot-frame" then inl (mkControl "reboot" 0)
  else inr "invalid character".

Definition is_failure (a : Attempt) : Prop :=
  match a with ConnectFails _ _ => True | _ => False end.

(** ** The same two expressions in IEEE binary64

    [SpecFloat] of the standard library is an executable model of binary64
    with rounding to nearest even, which is what Go's [float64] is. *)
Module Binary64.

Definition prec : Z := 53.
Definition emax : Z := 1024.

(** [float64(z)] for an integer [z] *)
Definition of_Z (z : Z) : spec_float := binary_normalize prec emax z 0 false.

Definition mul : spec_float -> spec_float -> spec_float := SFmul prec emax.
Definition add : spec_float -> spec_float -> spec_float := SFadd prec emax.
Definition sub : spec_float -> spec_float -> spec_float := SFsub prec emax.
Definition div : spec_float -> spec_float -> spec_float := SFdiv prec emax.

(** Conversion of a finite float to an integer, toward zero. *)
Definition to_Z (x : spec_float) : option Z :=
  match x with
  | S754_zero _ => Some 0
  | S754_finite s m e =>
      let a := if 0 <=? e then Zpos m * 2 ^ e else Zpos m / 2 ^ (- e) in
      Some (if s then - a else a)
  | _ => None
  end.

(** The constants [2.0] and [0.2] (the float nearest to 2/10). *)
Definition b64_backoffFactor : spec_float := of_Z 2.
Definition b64_jitter : spec_float := div (of_Z 2) (of_Z 10).

Definition b64_grow_backoff (backoff : Z) : option Z :=
  match to_Z (mul (of_Z backoff) b64_backoffFactor) with
  | Some backoff' => Some (if backoff' >? maxBackoff then maxBackoff else backoff')
  | None => None
  end.

Definition b64_addJitter (duration : Z) (jitter r : spec_float) : option Z :=
  let multiplier := add (of_Z 1) (mul (sub (mul r (of_Z 2)) (of_Z 1)) jitter) in
  to_Z (mul (of_Z duration) multiplier).

(** The largest float below 1, the largest draw of [rand.Float64]. *)
Definition below_one : spec_float := S754_finite false 9007199254740991 (-53).

End Binary64.

End Client.

(** * More runs of the relay buffer *)

Module Overflow.
Import Backpressure.

(** Is the log line the warning of a record lost even after an eviction? *)
Definition is_failed_to_add (e : LogEntry) : bool :=
  match e with
  | Log WarnLevel [LStr msg] =>
      String.eqb msg "⚠️  Failed to add sample even after dropping oldest"
  | _ => false
  end.

Definition failed_to_add_warnings (log : list LogEntry) : nat :=
  length (List.filter is_failed_to_add log).

(** [k] calls of [PopBatch(ctx, maxCount)] in a row, the context live. *)
Definition pops {Sample} (k : nat) (pick : bool) (maxCount : Z) : list (Op Sample) :=
  replicate k (OpPopBatch false pick maxCount).

(** The batch of a result, [nil] being no record. *)
Definition batch_of {Sample} (r : option (list Sample)) : list Sample :=
  match r with Some batch => batch | None => [] end.

End Overflow.

(** * More on the supervisor and the wire *)

Module Wire.
Import Client.

(** A draw of [rand.Float64()] lies in [[0, 1)]. *)
Definition valid_draw (a : Attempt) : Prop :=
  match a with
  | ConnectFails _ r => (0 <= r)%Q /\ (r < 1)%Q
  | _ => True
  end.

(** The encoded records a frame carries. *)
Definition frame_samples (f : Frame) : list JSON :=
  match f with
  | TextFrame (JObject [_; (_, JArray samples)]) => samples
  | _ => []
  end.

Definition is_close (f : Frame) : bool :=
  match f with CloseFrame _ _ => true | _ => false end.

(** The records the feeder pushed along a script of the writer. *)
Definition script_pushed {Sample} (script : list (Turn Sample)) : list Sample :=
  flat_map turn_pushed script.

(** A client and a script at [Sample := Z], for instances. *)
Definition live_client : Client Z :=
  mkClient "wss://example/agent" "tok" "host" (Some (mkConn []))
    (Backpressure.mkBuffer (Backpressure.mkChan 100 [1; 2; 3]) 100 0).

Definition two_turns : list (Turn Z) :=
  [mkTurn [4] ArmDefault false false true; mkTurn [] ArmDone false false true].

End Wire.

(** * The collector and the sample channel (metrics, main) *)

Module Collector.
Import Backpressure.



Section WithSample.

Context {Sample : Type}.

(** What [collect] logs about the sample it returns (the reading of the
    system is outside the repository). *)
Variable describe : Sample -> list LogArg.

Definition collected (sample : Sample) : LogEntry :=
  Log DebugLevel (LStr "📈 Collected metrics" :: describe sample).

Definition channel_full : LogEntry :=
  Log WarnLevel [LStr "⚠️  Sample channel full, dropping oldest sample"].

(** What happens around the loop of [Start]. *)
Inductive Event :=
| Tick (sample : Sample) (done pick : bool)
    (* the ticker fires and [collect] returns [sample]; [done] tells whether
       the context is cancelled at the inner [select], [pick] is the
       choice of the runtime when the send and the cancellation are both
       ready *)
| Cancelled   (* the outer [select] takes [<-ctx.Done()] *)
| Received.   (* the consumer takes one sample from the channel *)

(** How [Start] stands at the end of the script. *)
Inductive Stop :=
| Ticking            (* in the loop, waiting *)
| ParkedOnFirstSend  (* waiting to send the first sample *)
| Stopped            (* returned from the outer [select], with the log line *)
| ReturnedOnSend     (* returned from a [select] on a send *)
| TickerPanicked.    (* [time.NewTicker] with a non-positive interval *)

(** The [for] loop of [Start]. *)
Fixpoint Start_loop (events : list Event) (ch : Chan Sample)
  : Chan Sample * list LogEntry * Stop :=
  match events with
  | [] => (ch, [], Ticking)
  | Received :: events' =>
      match chan_try_recv ch with
      | Some (_, ch') => Start_loop events' ch'
      | None => Start_loop events' ch
      end
  | Cancelled :: _ =>
      (ch, [Log InfoLevel [LStr "📊 Metrics collector stopped"]], Stopped)
  | Tick sample done pick :: events' =>
      match chan_try_send ch sample with
      | Some ch' =>
          if done && pick then (ch, [collected sample], ReturnedOnSend)
          else
            let '(ch2, log, stop) := Start_loop events' ch' in
            (ch2, collected sample :: log, stop)
      | None =>
          if done then (ch, [collected sample], ReturnedOnSend)
          else
            let '(ch2, log, stop) := Start_loop events' ch in
            (ch2, collected sample :: channel_full :: log, stop)
      end
  end.

(** [func (c *Collector) Start(ctx, sampleChan)]: [first] is the sample
    collected at once, [done0] and [pick0] are for the [select] that sends
    it. *)
Definition Start (interval : Z) (first : Sample) (done0 pick0 : bool)
    (events : list Event) (ch : Chan Sample)
  : Chan Sample * list LogEntry * Stop :=
  let started :=
    Log InfoLevel [LStr "📊 Metrics collector started"; LStr "interval"; LInt interval] in
  if interval <=? 0 then (ch, [started], TickerPanicked)
  else
    match chan_try_send ch first with
    | Some ch' =>
        if done0 && pick0 then (ch, [started; collected first], ReturnedOnSend)
        else
          let '(ch2, log, stop) := Start_loop events ch' in
          (ch2, started :: collected first :: log, stop)
    | None =>
        if done0 then (ch, [started; collected first], ReturnedOnSend)
        else (ch, [started; collected first], ParkedOnFirstSend)
    end.

(** The samples the ticks of a script bring. *)
Definition ticked (events : list Event) : list Sample :=
  flat_map (fun ev => match ev with Tick s _ _ => [s] | _ => [] end) events.

(** A script in which the ticker fires and nothing else happens. *)
Definition only_live_ticks (events : list Event) : Prop :=
  Forall (fun ev => match ev with Tick _ false _ => True | _ => False end) events.

(** A script without the consumer. *)
Definition no_consumer (events : list Event) : Prop :=
  Forall (fun ev => match ev with Received => False | _ => True end) events.

Definition channel_full_warnings (log : list LogEntry) : nat :=
  length (List.filter
            (fun e => match e with
                      | Log WarnLevel [LStr msg] =>
                          String.eqb msg "⚠️  Sample channel full, dropping oldest sample"
                      | _ => false
                      end) log).

End WithSample.

Arguments Event : clear implicits.

(** A [describe] at [Sample := Z], for instances. *)
Definition describe_Z (s : Z) : list LogArg := [LStr "cpu"; LInt s].

End Collector.

(** * From the collector to the writer (main, runLoop, bufferSamples) *)

Module Pipeline.
Import Backpressure Collector.

Section WithSample.

Context {Sample : Type}.
Variable describe : Sample -> list LogArg.

(** [main] starts the collector on [sampleChan]; [runLoop] starts
    [bufferSamples], which moves the samples from [sampleChan] into the
    buffer, and [writeLoop], which takes them out with [PopBatch].  The
    state they share, with the lines the collector has logged. *)
Record Pipe := mkPipe {
  sampleChan : Chan Sample;
  trace : Trace Sample;
  collector_log : list LogEntry
}.

(** Which goroutine moves next; the context is live. *)
Inductive Sched :=
| SCollect (sample : Sample)       (* the ticker of the collector fires *)
| SFeed                            (* one iteration of [bufferSamples] *)
| SPop (pick : bool) (maxCount : Z). (* the writer calls [PopBatch] *)

(** One iteration of [bufferSamples] with the context live:
    [case sample := <-sampleChan: c.buffer.Push(sample)]; on an empty
    channel the goroutine waits. *)
Definition bufferSamples_step (p : Pipe) : Pipe :=
  match chan_try_recv (sampleChan p) with
  | Some (sample, ch') => mkPipe ch' (run [OpPush sample] (trace p)) (collector_log p)
  | None => p
  end.

Definition step (p : Pipe) (ev : Sched) : Pipe :=
  match ev with
  | SCollect sample =>
      let '(ch', log, _) := Start_loop describe [Tick sample false false] (sampleChan p) in
      mkPipe ch' (trace p) (collector_log p ++ log)
  | SFeed => bufferSamples_step p
  | SPop pick maxCount =>
      mkPipe (sampleChan p) (run [OpPopBatch false pick maxCount] (trace p))
        (collector_log p)
  end.

Definition pipeline (evs : list Sched) (p : Pipe) : Pipe := fold_left step evs p.

(** The samples the collector collected along a schedule. *)
Definition collected_samples (evs : list Sched) : list Sample :=
  flat_map (fun ev => match ev with SCollect s => [s] | _ => [] end) evs.

(** Every sample still in the system, oldest first: delivered to the
    writer, queued in the buffer, queued in the channel. *)
Definition in_flight (p : Pipe) : list Sample :=
  retained (trace p) ++ chan_queue (sampleChan p).

(** The state of the pipeline is sound: the buffer is reachable and the
    channel is within its capacity. *)
Definition sound (size : Z) (p : Pipe) : Prop :=
  reachable size (tr_buffer (trace p))
  /\ chan_len (sampleChan p) <= chan_cap (sampleChan p).

(** The samples in the system and the samples lost, counted. *)
Definition accounted (p : Pipe) : nat :=
  length (in_flight p) + tr_evictions (trace p)
  + channel_full_warnings (collector_log p).

End WithSample.

Arguments Pipe : clear implicits.
Arguments Sched : clear implicits.

End Pipeline.

(** * Configuration (config) *)

Module Config.

Definition EnvDefault : string := "remoteprod".
Definition DashboardURLLocalDev : string := "http://localhost:5173".
Definition APIURLLocalDev : string := "ws://localhost:3001/agent".
Definition DashboardURLLocalProd : string := "http://localhost:3000".
Definition APIURLLocalProd : string := "ws://localhost:3001/agent".
Definition DashboardURLRemoteProd : string := "https://windash.jcdorr3.net".
Definition APIURLRemoteProd : string := "wss://windash.jcdorr3.net/agent".
Definition DashboardURLLocalDockerProd : string := "http://192.168.1.57:3004".
Definition APIURLLocalDockerProd : string := "ws://192.168.1.57:3005/agent".
Definition KeychainService : string := "com.windash.agent".

(** [type Config struct]. *)
Record Config := mkConfig {
  Env : string;
  DashboardURL : string;
  APIURL : string;
  MetricsIntervalMs : Z;
  OpenOnStart : bool;
  DeviceCode : string;
  ConfigDir : string;
  LogDir : string
}.

Definition set_DashboardURL (cfg : Config) (url : string) : Config :=
  mkConfig (Env cfg) url (APIURL cfg) (MetricsIntervalMs cfg) (OpenOnStart cfg)
    (DeviceCode cfg) (ConfigDir cfg) (LogDir cfg).

Definition set_APIURL (cfg : Config) (url : string) : Config :=
  mkConfig (Env cfg) (DashboardURL cfg) url (MetricsIntervalMs cfg) (OpenOnStart cfg)
    (DeviceCode cfg) (ConfigDir cfg) (LogDir cfg).

Definition set_DeviceCode (cfg : Config) (code : string) : Config :=
  mkConfig (Env cfg) (DashboardURL cfg) (APIURL cfg) (MetricsIntervalMs cfg)
    (OpenOnStart cfg) code (ConfigDir cfg) (LogDir cfg).

Definition set_dirs (cfg : Config) (configDir logDir : string) : Config :=
  mkConfig (Env cfg) (DashboardURL cfg) (APIURL cfg) (MetricsIntervalMs cfg)
    (OpenOnStart cfg) (DeviceCode cfg) configDir logDir.

(** One case of the [switch] of [Load]: each of the two addresses is set
    if it is the empty string. *)
Definition default_endpoints (cfg : Config) (dashboard api : string) : Config :=
  let cfg1 := if String.eqb (DashboardURL cfg) EmptyString
              then set_DashboardURL cfg dashboard else cfg in
  if String.eqb (APIURL cfg1) EmptyString then set_APIURL cfg1 api else cfg1.

(** [switch cfg.Env] of [Load]. *)
Definition set_endpoints (cfg : Config) : Config :=
  if String.eqb (Env cfg) "localdev"
  then default_endpoints cfg DashboardURLLocalDev APIURLLocalDev
  else if String.eqb (Env cfg) "localprod"
  then default_endpoints cfg DashboardURLLocalProd APIURLLocalProd
  else if String.eqb (Env cfg) "localdockerprod"
  then default_endpoints cfg DashboardURLLocalDockerProd APIURLLocalDockerProd
  else if String.eqb (Env cfg) "remoteprod"
  then default_endpoints cfg DashboardURLRemoteProd APIURLRemoteProd
  else default_endpoints cfg DashboardURLRemoteProd APIURLRemoteProd.

(** The four pairs of addresses of the source. *)
Definition known_endpoints : list (string * string) :=
  [(DashboardURLLocalDev, APIURLLocalDev); (DashboardURLLocalProd, APIURLLocalProd);
   (DashboardURLLocalDockerProd, APIURLLocalDockerProd);
   (DashboardURLRemoteProd, APIURLRemoteProd)].

(** The struct that [writeDefaultConfig] writes. *)
Definition default_config : Config :=
  mkConfig EnvDefault DashboardURLRemoteProd APIURLRemoteProd 2000 true
    EmptyString EmptyString EmptyString.

(** What [v.Unmarshal] gives when there is neither a file nor a variable:
    the three defaults of [Load], the zero value elsewhere. *)
Definition viper_defaults : Config :=
  mkConfig EnvDefault EmptyString EmptyString 2000 true
    EmptyString EmptyString EmptyString.

(** [func Load()], which returns a [Config] or an error.  What the system answers is given:
    the error of [EnsureDirs], the result of [v.Unmarshal], the two
    directories, whether the configuration file exists, and the error of
    [os.WriteFile].  The result comes with the struct written to the file,
    if one was written. *)
Definition Load (ensureDirs : option string) (unmarshalled : Config + string)
    (configDir logDir : string) (file_exists : bool) (writeFile : option string)
  : (Config + string) * option Config :=
  match ensureDirs with
  | Some err => (inr err, None)
  | None =>
      match unmarshalled with
      | inr err => (inr err, None)
      | inl cfg0 =>
          let cfg := set_dirs (set_endpoints cfg0) configDir logDir in
          if file_exists then (inl cfg, None)
          else
            match writeFile with
            | Some err => (inr err, None)
            | None => (inl cfg, Some default_config)
            end
      end
  end.

End Config.

(** * Pairing (auth) *)

Module Pairing.
Import Config.

Definition nl : string := String (Ascii.ascii_of_nat 10) EmptyString.

(** ** [RealPairingAPI] *)

(** What one round of the polling loop of [ExchangeCode] meets. *)
Inductive Poll :=
| PollDone (err : string)          (* [<-ctx.Done()], with [ctx.Err()] *)
| PollNoRequest (err : string)     (* [http.NewRequestWithContext] fails *)
| PollNoResponse (err : string)    (* [r.httpClient.Do] fails *)
| PollStatus (status : Z) (body : string).


(** [time.Time] as a number; [format_time] is [t.Format("15:04:05")]. *)
Definition Time := Z.

Section WithDecoders.

(** [json.NewDecoder(resp.Body).Decode(&result)] for the two responses:
    the fields read, or the message of the error. *)
Variable decode_code : string -> (string * Time) + string.
Variable decode_token : string -> string + string.
Variable format_time : Time -> string.
Variable format_status : Z -> string.


(** The [for] loop of [ExchangeCode]; [None] while it is still polling. *)
Fixpoint ExchangeCode_loop (polls : list Poll)
  : list LogEntry * option (string * option string) :=
  match polls with
  | [] => ([], None)
  | PollDone err :: _ => ([], Some (EmptyString, Some err))
  | PollNoRequest err :: polls' =>
      let '(log, r) := ExchangeCode_loop polls' in
      (Log WarnLevel [LStr "Failed to create request"; LStr "error"; LStr err] :: log, r)
  | PollNoResponse err :: polls' =>
      let '(log, r) := ExchangeCode_loop polls' in
      (Log WarnLevel [LStr "Request failed"; LStr "error"; LStr err] :: log, r)
  | PollStatus status body :: polls' =>
      if status =? 200 then
        match decode_token body with
        | inr err =>
            ([], Some (EmptyString, Some ("failed to decode token response: " +:+ err)))
        | inl token =>
            ([Log InfoLevel [LStr "✅ Device approved! Token received"]],
             Some (token, None))
        end
      else if status =? 404 then
        let '(log, r) := ExchangeCode_loop polls' in
        (Log DebugLevel [LStr "⏳ Waiting for user to approve device..."] :: log, r)
      else if status =? 410 then
        ([], Some (EmptyString, Some "device code expired - please restart the agent"))
      else
        let '(log, r) := ExchangeCode_loop polls' in
        (Log WarnLevel [LStr "Unexpected status during polling"; LStr "status";
                        LInt status; LStr "body"; LStr body] :: log, r)
  end.

(** [func (r RealPairingAPI) ExchangeCode(ctx, code)]. *)
Definition ExchangeCode (polls : list Poll)
  : list LogEntry * option (string * option string) :=
  let '(log, r) := ExchangeCode_loop polls in
  (Log InfoLevel [LStr "🔄 Polling for device approval..."] :: log, r).

(** A round after which the loop goes on. *)
Definition inconclusive (p : Poll) : bool :=
  match p with
  | PollDone _ => false
  | PollNoRequest _ | PollNoResponse _ => true
  | PollStatus status _ => negb (status =? 200) && negb (status =? 410)
  end.

End WithDecoders.

(** ** The token store *)

(** The keychain of the system: entries by service and user, the newest
    first. *)
Definition Keyring := list (string * string * string).

Definition same_key (service user : string) (entry : string * string * string) : bool :=
  String.eqb entry.1.1 service && String.eqb entry.1.2 user.

(** [keyring.Get]: the secret, or [ErrNotFound]. *)
Definition keyring_Get (kr : Keyring) (service user : string) : string + string :=
  match List.find (same_key service user) kr with
  | Some entry => inl entry.2
  | None => inr "secret not found in keyring"
  end.

(** [keyring.Set] replaces the secret of the entry. *)
Definition keyring_Set (kr : Keyring) (service user password : string) : Keyring :=
  (service, user, password)
    :: List.filter (fun entry => negb (same_key service user entry)) kr.

(** [keyring.Delete]. *)
Definition keyring_Delete (kr : Keyring) (service user : string)
  : Keyring * option string :=
  match List.find (same_key service user) kr with
  | Some _ => (List.filter (fun entry => negb (same_key service user entry)) kr, None)
  | None => (kr, Some "secret not found in keyring")
  end.

(** What [EnsurePaired] does to the world, in order. *)
Inductive Effect :=
| ELog (e : LogEntry)
| EPrint (text : string)
| ERequestCode
| EExchangeCode (code : string) (deadline : Time)
| ESaveConfig (cfg : Config)
| EOpenURL (url : string).

(** [func (s TokenStore) SaveToken(deviceID, token)]; [down] is the error
    of a keychain that cannot be used. *)
Definition SaveToken (down : option string) (kr : Keyring) (deviceID token : string)
  : Keyring * list Effect * option string :=
  let saving := ELog (Log DebugLevel [LStr "Saving token to keychain"; LStr "deviceId";
                                      LStr deviceID]) in
  match down with
  | Some err => (kr, [saving], Some ("keychain save failed: " +:+ err))
  | None =>
      (keyring_Set kr KeychainService deviceID token,
       [saving;
        ELog (Log InfoLevel [LStr "🔐 Token saved securely to Windows Credential Manager"])],
       None)
  end.

(** [func (s TokenStore) GetToken(deviceID)]. *)
Definition GetToken (down : option string) (kr : Keyring) (deviceID : string)
  : list Effect * (string * option string) :=
  let retrieving := ELog (Log DebugLevel [LStr "Retrieving token from keychain";
                                          LStr "deviceId"; LStr deviceID]) in
  match down with
  | Some err => ([retrieving], (EmptyString, Some err))
  | None =>
      match keyring_Get kr KeychainService deviceID with
      | inr err => ([retrieving], (EmptyString, Some err))
      | inl token =>
          ([retrieving; ELog (Log DebugLevel [LStr "✅ Token retrieved from keychain"])],
           (token, None))
      end
  end.

(** [func (s TokenStore) DeleteToken(deviceID)]. *)
Definition DeleteToken (down : option string) (kr : Keyring) (deviceID : string)
  : Keyring * list Effect * option string :=
  let deleting := ELog (Log DebugLevel [LStr "Deleting token from keychain";
                                        LStr "deviceId"; LStr deviceID]) in
  match down with
  | Some err => (kr, [deleting], Some err)
  | None =>
      let '(kr', err) := keyring_Delete kr KeychainService deviceID in
      (kr', [deleting], err)
  end.

(** [func GetMachineID() (string, error)], from the answer of
    [machineid.ProtectedID]. *)
Definition GetMachineID (protectedID : string + string) : string * option string :=
  match protectedID with
  | inl id => (id, None)
  | inr err => (EmptyString, Some ("failed to get machine ID: " +:+ err))
  end.

(** ** [EnsurePaired] *)

(** What the surroundings answer during one call of [EnsurePaired]: the
    machine id, the keychain being down, the two methods of the
    [PairingAPI] given, [cfg.Save] and the browser. *)
Record Answers := mkAnswers {
  protectedID : string + string;
  keychain_down : option string;
  api_RequestCode : string * Time * option string;
  api_ExchangeCode : string -> Time -> string * option string;
  cfg_Save : option string;
  browser_OpenURL : option string
}.

(** The results of [EnsurePaired] with the keychain and the configuration
    it leaves and what it did. *)
Record Paired := mkPaired {
  token : string;
  firstRun : bool;
  err : option string;
  keyring_after : Keyring;
  cfg_after : Config;
  effects : list Effect
}.

Section WithFormat.

Variable format_time : Time -> string.

(** [func EnsurePaired(ctx, api, store, cfg, logger)
      (token string, firstRun bool, err error)]. *)
Definition EnsurePaired (a : Answers) (kr : Keyring) (cfg : Config) : Paired :=
  match GetMachineID (protectedID a) with
  | (_, Some e) =>
      mkPaired EmptyString false (Some ("failed to get device ID: " +:+ e)) kr cfg []
  | (deviceID, None) =>
      let '(get_effects, (stored, get_err)) := GetToken (keychain_down a) kr deviceID in
      if bool_decide (get_err = None) && negb (String.eqb stored EmptyString)
      then
        mkPaired stored false None kr cfg
          (get_effects
           ++ [ELog (Log DebugLevel [LStr "Device already paired"; LStr "deviceId";
                                     LStr deviceID])])
      else
        let first_run :=
          get_effects
          ++ [ELog (Log InfoLevel [LStr "🆕 First run detected - starting pairing flow..."]);
              EPrint nl;
              EPrint ("🆕 First time setup - Let's pair your device!" +:+ nl);
              EPrint nl;
              ERequestCode] in
        match api_RequestCode a with
        | (_, _, Some e) =>
            mkPaired EmptyString true (Some ("failed to request device code: " +:+ e))
              kr cfg
              (first_run
               ++ [EPrint (nl +:+ "❌ Failed to request device code from backend:" +:+ nl);
                   EPrint ("   Error: " +:+ e +:+ nl);
                   EPrint ("   Backend URL: " +:+ DashboardURL cfg
                           +:+ "/api/device-codes" +:+ nl +:+ nl)])
        | (code, expiresAt, None) =>
            let cfg' := set_DeviceCode cfg code in
            let saved :=
              ESaveConfig cfg'
              :: match cfg_Save a with
                 | Some e => [ELog (Log WarnLevel [LStr "Failed to save device code to config";
                                                   LStr "error"; LStr e])]
                 | None => []
                 end in
            let pairingURL := DashboardURL cfg' +:+ "/pair?code=" +:+ code in
            let instructions :=
              [EPrint ("🔐 Your pairing code: " +:+ code +:+ nl +:+ nl);
               EPrint ("📋 To complete setup:" +:+ nl);
               EPrint ("   1. Your browser will open automatically" +:+ nl);
               EPrint ("   2. Log in to your WinDash account" +:+ nl);
               EPrint ("   3. Approve this device" +:+ nl +:+ nl);
               EPrint ("⏱️  Code expires at: " +:+ format_time expiresAt +:+ nl +:+ nl);
               ELog (Log InfoLevel [LStr "🌐 Opening browser for pairing"; LStr "url";
                                    LStr pairingURL]);
               EOpenURL pairingURL] in
            let opened :=
              match browser_OpenURL a with
              | Some e =>
                  [ELog (Log WarnLevel [LStr "Failed to open browser automatically";
                                        LStr "error"; LStr e]);
                   EPrint ("⚠️  Could not open browser automatically." +:+ nl);
                   EPrint ("   Please visit: " +:+ pairingURL +:+ nl +:+ nl)]
              | None => []
              end in
            let polling :=
              first_run ++ saved ++ instructions ++ opened
              ++ [EPrint ("⏳ Waiting for approval..." +:+ nl);
                  EExchangeCode code expiresAt] in
            match api_ExchangeCode a code expiresAt with
            | (_, Some e) =>
                mkPaired EmptyString true (Some ("pairing failed: " +:+ e)) kr cfg' polling
            | (tok, None) =>
                match SaveToken (keychain_down a) kr deviceID tok with
                | (kr', save_effects, Some e) =>
                    mkPaired EmptyString true (Some ("failed to save token: " +:+ e))
                      kr' cfg' (polling ++ save_effects)
                | (kr', save_effects, None) =>
                    mkPaired tok true None kr' cfg'
                      (polling ++ save_effects
                       ++ [ELog (Log InfoLevel [LStr "✅ Pairing complete!"]);
                           EPrint nl;
                           EPrint ("✅ Device paired successfully!" +:+ nl);
                           EPrint nl])
                end
            end
        end
  end.

End WithFormat.

(** Does the call talk to the backend, open the browser or write the
    configuration? *)
Definition reaches_out (e : Effect) : bool :=
  match e with
  | ERequestCode | EExchangeCode _ _ | ESaveConfig _ | EOpenURL _ => true
  | ELog _ | EPrint _ => false
  end.


Definition toy_decode_token (body : string) : string + string :=
  if String.eqb body "{}" then inr "EOF" else inl body.

Definition toy_format_time (t : Time) : string := "12:00:00".

(** A machine that is paired, one whose code expires, one that is
    approved. *)
Definition paired_keyring : Keyring := [(KeychainService, "machine-1", "tok-1")].

Definition paired_answers : Answers :=
  mkAnswers (inl "machine-1") None
    (EmptyString, 0, Some "backend not reachable")
    (fun _ _ => (EmptyString, Some "backend not reachable"))
    None None.

Definition expired_answers : Answers :=
  mkAnswers (inl "machine-1") None
    ("1234-5678", 600, None)
    (fun _ _ => ("stale", Some "device code expired - please restart the agent"))
    None (Some "no browser").

Definition approved_answers : Answers :=
  mkAnswers (inl "machine-1") None
    ("1234-5678", 600, None)
    (fun _ _ => ("tok-1", None))
    (Some "read-only file system") None.

End Pairing.

(** * Properties of the relay buffer *)

Module BackpressureFacts.
Import Backpressure.

Section WithSample.

Context {Sample : Type}.

Implicit Types (b : BackpressureBuffer Sample) (c : Chan Sample)
  (sample x : Sample) (q l samples : list Sample).

Ltac go_unfold :=
  unfold mbind, mret, Go_bind, Go_ret, bind, ret,
    select_send_default, select_recv_default, select_recv_done,
    incr_dropped, warn, make_slice, chan_try_send, chan_try_recv, chan_len.

Lemma with_queue_same b : with_queue b (chan_queue (buffer b)) = b.
Proof. by destruct b as [[] ? ?]. Qed.

(** A fresh buffer: empty, nothing dropped. *)
Lemma NewBackpressureBuffer_spec size :
  0 <= size ->
  NewBackpressureBuffer (Sample := Sample) size
  = Some (mkBuffer (mkChan size []) size 0).
Proof.
  intros H. unfold NewBackpressureBuffer, make_chan.
  by destruct (Z.ltb_spec size 0); [lia|].
Qed.

(** [Push] when the channel has a free slot. *)
Lemma Push_free sample b :
  Len b < chan_cap (buffer b) ->
  Push sample b
  = Returned tt (with_queue b (chan_queue (buffer b) ++ [sample])) [] 1%nat.
Proof.
  intros Hlen%Z.ltb_lt. unfold Push, Len in *. go_unfold.
  unfold chan_len in Hlen. by rewrite Hlen.
Qed.

(** [Push] when the channel is full: the counter goes up, the head of the
    queue (if any) is taken out, and the record is appended if that made
    room. *)
Lemma Push_full sample b :
  chan_cap (buffer b) <= Len b ->
  Push sample b
  = let d := uint64_incr (dropped b) in
    let q1 := tail (chan_queue (buffer b)) in
    let sent := Z.of_nat (length q1) <? chan_cap (buffer b) in
    Returned tt
      (mkBuffer (mkChan (chan_cap (buffer b)) (if sent then q1 ++ [sample] else q1))
         (bufferSize b) d)
      ((if sent then [] else [Log WarnLevel failed_to_add])
       ++ (if d mod 10 =? 0 then [Log WarnLevel (backpressure_warning d)] else []))
      (4 + (if sent then 0 else 1) + (if (d mod 10 =? 0)%Z then 1 else 0))%nat.
Proof.
  intros Hlen%Z.ltb_ge. unfold Push, Len in *. go_unfold.
  unfold chan_len in Hlen. rewrite Hlen. clear Hlen.
  destruct b as [[cap q] size d]; simpl.
  destruct q as [|x q']; simpl tail; simpl chan_queue; simpl chan_cap;
    destruct (Z.of_nat (length _) <? cap); simpl;
    destruct (uint64_incr d mod 10 =? 0); reflexivity.
Qed.

(** The batching loop takes the [n] oldest records, or all of them when
    there are fewer, and never waits. *)
Lemma PopBatch_loop_spec n samples b :
  PopBatch_loop n samples b
  = Returned (samples ++ take n (chan_queue (buffer b)))
      (with_queue b (drop n (chan_queue (buffer b)))) []
      (n `min` S (length (chan_queue (buffer b)))).
Proof.
  revert samples b. induction n as [|n IH]; intros samples b.
  - simpl. rewrite app_nil_r, drop_0, with_queue_same. reflexivity.
  - destruct b as [[cap q] size d]. destruct q as [|x q'].
    + simpl. go_unfold. simpl. by rewrite app_nil_r, Nat.min_0_r.
    + simpl. go_unfold. simpl.
      rewrite IH. simpl. unfold with_queue. simpl.
      by rewrite <- app_assoc.
Qed.

(** [PopBatch] on a negative [maxCount]: [make] panics. *)
Lemma PopBatch_negative done pick maxCount b :
  maxCount < 0 -> PopBatch done pick maxCount b = Panicked.
Proof.
  intros H%Z.ltb_lt. unfold PopBatch. go_unfold. by rewrite H.
Qed.

(** [PopBatch] on an empty buffer: parked, unless the context is
    cancelled. *)
Lemma PopBatch_empty done pick maxCount b :
  0 <= maxCount -> chan_queue (buffer b) = [] ->
  PopBatch done pick maxCount b
  = if done then Returned None b [] 2%nat else Blocked.
Proof.
  intros H%Z.ltb_ge Hq. unfold PopBatch. go_unfold. rewrite H, Hq.
  by destruct done.
Qed.

(** [PopBatch] on a buffer that holds records: the cancellation arm is
    taken only if the context is cancelled and the runtime picks it;
    otherwise the batch is the [max 1 maxCount] oldest records, in queue
    order, and they leave the buffer. *)
Lemma PopBatch_nonempty done pick maxCount b x q' :
  0 <= maxCount -> chan_queue (buffer b) = x :: q' ->
  PopBatch done pick maxCount b
  = if done && pick then Returned None b [] 2%nat
    else
      let k := S (Z.to_nat (maxCount - 1)) in
      Returned (Some (take k (x :: q'))) (with_queue b (drop k (x :: q'))) []
        (2 + (Z.to_nat (maxCount - 1) `min` S (length q')))%nat.
Proof.
  intros H%Z.ltb_ge Hq. unfold PopBatch. go_unfold. rewrite H, Hq.
  destruct (done && pick); [done|]. simpl.
  pose proof (PopBatch_loop_spec (Z.to_nat (maxCount - 1)) [x]
                (mkBuffer (mkChan (chan_cap (buffer b)) q') (bufferSize b) (dropped b))) as E.
  simpl in E. rewrite E. simpl. by rewrite Nat.add_0_r.
Qed.

(** ** Reachable states *)

Lemma preserves_ret {A} size (a : A) : preserves (Sample := Sample) size (mret a).
Proof. by intros b r b' log n Hb [= _ <- _ _]. Qed.

Lemma preserves_bind {A B} size (m : Go Sample A) (f : A -> Go Sample B) :
  preserves size m -> (forall a, preserves size (f a)) ->
  preserves size (m ≫= f).
Proof.
  intros Hm Hf b r b' log n Hb. unfold mbind, Go_bind, bind.
  destruct (m b) as [a b1 log1 n1| |] eqn:E1; [|done..].
  destruct (f a b1) as [r2 b2 log2 n2| |] eqn:E2; [|done..].
  intros [= _ <- _ _]. eapply Hf; [|exact E2]. by eapply Hm.
Qed.

Lemma preserves_send size sample : preserves size (select_send_default sample).
Proof. intros b r b' log n Hb E. by eapply reach_send. Qed.

Lemma preserves_recv size : preserves size (select_recv_default (Sample := Sample)).
Proof. intros b r b' log n Hb E. by eapply reach_recv. Qed.

Lemma preserves_recv_done size done pick :
  preserves size (select_recv_done (Sample := Sample) done pick).
Proof. intros b r b' log n Hb E. by eapply reach_recv_done. Qed.

Lemma preserves_incr size : preserves size (incr_dropped (Sample := Sample)).
Proof. intros b r b' log n Hb E. by eapply reach_incr. Qed.

Lemma preserves_warn size args : preserves size (warn (Sample := Sample) args).
Proof. by intros b r b' log n Hb [= _ <- _ _]. Qed.

Lemma preserves_make_slice size maxCount :
  preserves size (make_slice (Sample := Sample) maxCount).
Proof.
  intros b r b' log n Hb. unfold make_slice.
  destruct (maxCount <? 0); [done|]. by intros [= _ <- _ _].
Qed.

Lemma Push_preserves size sample : preserves size (Push sample).
Proof.
  unfold Push. apply preserves_bind; [apply preserves_send|]. intros [|].
  { apply preserves_ret. }
  apply preserves_bind; [apply preserves_incr|]. intros d.
  apply preserves_bind; [apply preserves_recv|]. intros _.
  apply preserves_bind; [apply preserves_send|]. intros sent'.
  apply preserves_bind.
  { destruct sent'; [apply preserves_ret | apply preserves_warn]. }
  intros _. destruct (d mod 10 =? 0); [apply preserves_warn | apply preserves_ret].
Qed.

Lemma PopBatch_loop_preserves size n samples :
  preserves size (PopBatch_loop n samples).
Proof.
  revert samples. induction n as [|n IH]; intros samples; simpl.
  { apply preserves_ret. }
  apply preserves_bind; [apply preserves_recv|].
  intros [x|]; [apply IH | apply preserves_ret].
Qed.

Lemma PopBatch_preserves size done pick maxCount :
  preserves size (PopBatch (Sample := Sample) done pick maxCount).
Proof.
  unfold PopBatch. apply preserves_bind; [apply preserves_make_slice|].
  intros samples. apply preserves_bind; [apply preserves_recv_done|].
  intros [x|]; [|apply preserves_ret].
  apply preserves_bind; [apply PopBatch_loop_preserves|].
  intros batch. apply preserves_ret.
Qed.

Lemma push_all_preserves size l : preserves size (push_all l).
Proof.
  induction l as [|s l IH]; simpl; [apply preserves_ret|].
  apply preserves_bind; [apply Push_preserves | by intros _].
Qed.

(** What holds in every reachable state. *)
Lemma reachable_inv size b :
  reachable size b ->
  chan_cap (buffer b) = size /\ bufferSize b = size
  /\ 0 <= Len b <= size /\ 0 <= dropped b < uint64_modulus.
Proof.
  unfold Len, chan_len.
  induction 1 as [b Hnew|b s sent b' log n _ IH E|b r b' log n _ IH E
                 |b done pick r b' log n _ IH E|b d b' log n _ IH E].
  - unfold NewBackpressureBuffer, make_chan in Hnew.
    destruct (Z.ltb_spec size 0); [done|]. injection Hnew as <-. simpl.
    unfold uint64_modulus. lia.
  - unfold select_send_default, chan_try_send, chan_len in E.
    destruct (Z.ltb_spec (Z.of_nat (length (chan_queue (buffer b))))
                (chan_cap (buffer b)));
      injection E as _ <- _ _; simpl; rewrite ?length_app; simpl; lia.
  - unfold select_recv_default, chan_try_recv in E.
    destruct (chan_queue (buffer b)) as [|x q'] eqn:Hq;
      injection E as _ <- _ _; simpl in *; rewrite ?Hq; simpl; lia.
  - unfold select_recv_done, chan_try_recv in E.
    destruct (chan_queue (buffer b)) as [|x q'] eqn:Hq.
    + destruct done; [|done]. injection E as _ <- _ _. rewrite Hq. simpl. lia.
    + destruct (done && pick); injection E as _ <- _ _; simpl in *;
        rewrite ?Hq; simpl; lia.
  - unfold incr_dropped in E. injection E as _ <- _ _. simpl.
    pose proof (Z.mod_pos_bound (dropped b + 1) uint64_modulus) as Hm.
    unfold uint64_incr. unfold uint64_modulus in *. lia.
Qed.

(** [Push] always returns, whatever the buffer holds, after at most six
    primitive operations, none of which waits; what it logs are warnings. *)
Lemma Push_returns sample b :
  exists b' log n,
    Push sample b = Returned tt b' log n
    /\ (n <= 6)%nat
    /\ chan_cap (buffer b') = chan_cap (buffer b)
    /\ bufferSize b' = bufferSize b
    /\ (Len b <= chan_cap (buffer b) -> Len b' <= chan_cap (buffer b')).
Proof.
  destruct (Z.lt_ge_cases (Len b) (chan_cap (buffer b))) as [Hfree|Hfull].
  - rewrite (Push_free _ _ Hfree). eexists _, _, _. split; [reflexivity|].
    unfold Len, chan_len in *. simpl. rewrite length_app. simpl.
    repeat split; lia.
  - rewrite (Push_full _ _ Hfull). eexists _, _, _. split; [reflexivity|].
    unfold Len, chan_len in *. simpl.
    destruct (Z.ltb_spec (Z.of_nat (length (tail (chan_queue (buffer b)))))
                (chan_cap (buffer b))) as [Hs|Hs];
      destruct (_ mod 10 =? 0); simpl; rewrite ?length_app; simpl;
      repeat split; try lia.
    all: intros; destruct (chan_queue (buffer b)); simpl in *; lia.
Qed.

Lemma push_all_cons sample l b b1 log1 n1 :
  Push sample b = Returned tt b1 log1 n1 ->
  push_all (sample :: l) b
  = match push_all l b1 with
    | Returned r b2 log2 n2 => Returned r b2 (log1 ++ log2) (n1 + n2)%nat
    | Blocked => Blocked
    | Panicked => Panicked
    end.
Proof.
  intros E. simpl. unfold mbind, Go_bind, bind. by rewrite E.
Qed.

(** Pushing [l] into a buffer of capacity at least one, with no consumer:
    the buffer ends up with the newest [cap] records of what it held
    followed by [l], in that order, and the counter has gone up once per
    record that did not fit. *)
Lemma push_all_spec l b k :
  1 <= chan_cap (buffer b) -> Len b <= chan_cap (buffer b) ->
  k = (length (chan_queue (buffer b) ++ l) - Z.to_nat (chan_cap (buffer b)))%nat ->
  exists log n,
    push_all l b
    = Returned tt
        (mkBuffer (mkChan (chan_cap (buffer b)) (drop k (chan_queue (buffer b) ++ l)))
           (bufferSize b) (Nat.iter k uint64_incr (dropped b)))
        log n.
Proof.
  revert b k. induction l as [|s l IH]; intros b k Hcap Hlen Hk.
  - unfold Len, chan_len in Hlen. rewrite app_nil_r in *.
    assert (k = 0%nat) as -> by lia.
    exists [], 0%nat. simpl. by destruct b as [[] ? ?].
  - destruct (Z.lt_ge_cases (Len b) (chan_cap (buffer b))) as [Hfree|Hfull].
    + rewrite (push_all_cons _ _ _ _ _ _ (Push_free s b Hfree)).
      destruct (IH (with_queue b (chan_queue (buffer b) ++ [s])) k) as (log & n & E).
      * done.
      * unfold Len, chan_len in *. simpl. rewrite length_app. simpl. lia.
      * simpl. by rewrite <- app_assoc.
      * rewrite E. simpl. rewrite <- app_assoc. simpl. by eexists _, _.
    + unfold Len, chan_len in *.
      destruct (chan_queue (buffer b)) as [|x q'] eqn:Hq; simpl in Hfull, Hlen; [lia|].
      assert (Hc : Z.to_nat (chan_cap (buffer b)) = S (length q')) by lia.
      assert (Hfull' : chan_cap (buffer b) <= Len b)
        by (unfold Len, chan_len; rewrite Hq; simpl; lia).
      pose proof (Push_full s b Hfull') as EP. rewrite Hq in EP. simpl in EP.
      assert (Hq' : (Z.of_nat (length q') <? chan_cap (buffer b)) = true)
        by (apply Z.ltb_lt; lia).
      rewrite Hq' in EP.
      rewrite (push_all_cons _ _ _ _ _ _ EP).
      rewrite Hc, !length_app in Hk. simpl in Hk.
      assert (k = S (length l)) as -> by lia.
      match type of EP with _ = Returned _ ?b1 _ _ =>
        destruct (IH b1 (length l)) as (log & n & E) end.
      * done.
      * simpl. rewrite length_app. simpl. lia.
      * simpl. rewrite Hc, !length_app. simpl. lia.
      * rewrite E. simpl. rewrite <- app_assoc. simpl.
        rewrite <- Nat.iter_succ_r. by eexists _, _.
Qed.

(** C1. Drop-oldest backpressure.  Pushing [C + 1] records into a fresh
    buffer of capacity [C], with no consumer, leaves the records 2..C+1 in
    the buffer, in push order: the one evicted is the oldest, and the
    counter says one record was dropped.  And the scenario of the
    specification: capacity 5, records 1..8 pushed; the buffer then holds
    4, 5, 6, 7, 8, the counter is 3, and [PopBatch] with [maxCount = 10]
    returns exactly [4; 5; 6; 7; 8] and empties the buffer. *)
Theorem drop_oldest (C : Z) l :
  0 <= C -> Z.of_nat (length l) = C + 1 ->
  (exists b0 b1 log n,
      NewBackpressureBuffer C = Some b0
      /\ push_all l b0 = Returned tt b1 log n
      /\ chan_queue (buffer b1) = drop 1 l
      /\ Len b1 = C
      /\ DroppedCount b1 = 1)
  /\ (exists (b0 b1 : BackpressureBuffer Z) log n,
         NewBackpressureBuffer 5 = Some b0
         /\ push_all [1; 2; 3; 4; 5; 6; 7; 8] b0 = Returned tt b1 log n
         /\ chan_queue (buffer b1) = [4; 5; 6; 7; 8]
         /\ DroppedCount b1 = 3
         /\ forall pick, exists (b2 : BackpressureBuffer Z) n',
             PopBatch false pick 10 b1 = Returned (Some [4; 5; 6; 7; 8]) b2 [] n'
             /\ Len b2 = 0).
Proof.
  intros HC Hl. split.
  - unfold NewBackpressureBuffer, make_chan.
    destruct (Z.ltb_spec C 0) as [?|_]; [lia|].
    destruct (Z.eq_dec C 0) as [->|HC0].
    + destruct l as [|x [|? ?]]; simpl in Hl; try lia.
      eexists _, _, _, _. split; [reflexivity|]. split.
      * simpl. unfold mbind, Go_bind, bind. rewrite Push_full by (unfold Len, chan_len; simpl; lia).
        simpl. reflexivity.
      * simpl. done.
    + destruct (push_all_spec l (mkBuffer (mkChan C []) C 0) 1) as (log & n & E).
      * simpl. lia.
      * unfold Len, chan_len. simpl. lia.
      * simpl. lia.
      * eexists _, _, _, _. split; [reflexivity|]. split; [exact E|].
        simpl. unfold Len, chan_len. simpl. rewrite length_drop.
        split; [done|]. split; [lia | reflexivity].
  - eexists _, _, _, _. split; [reflexivity|]. split; [vm_compute; reflexivity|].
    split; [reflexivity|]. split; [reflexivity|].
    intros pick. eexists _, _. split; [by destruct pick | reflexivity].
Qed.

(** Pushing records that all fit: nothing is evicted, nothing is logged. *)
Lemma push_all_no_evict l b :
  Len b + Z.of_nat (length l) <= chan_cap (buffer b) ->
  push_all l b
  = Returned tt (with_queue b (chan_queue (buffer b) ++ l)) [] (length l).
Proof.
  revert b. induction l as [|s l IH]; intros b Hfit.
  - simpl. by rewrite app_nil_r, with_queue_same.
  - simpl length in *.
    rewrite (push_all_cons _ _ _ _ _ _ (Push_free s b ltac:(lia))).
    rewrite IH.
    + simpl. unfold with_queue. simpl. by rewrite <- app_assoc.
    + unfold Len, chan_len in *. simpl. rewrite length_app. simpl. lia.
Qed.

(** The counter after [k] increments. *)
Lemma iter_uint64_incr k d :
  0 <= d < uint64_modulus ->
  Nat.iter k uint64_incr d = (d + Z.of_nat k) mod uint64_modulus.
Proof.
  intros Hd. induction k as [|k IH].
  - simpl. rewrite Z.add_0_r, Z.mod_small; lia.
  - rewrite Nat.iter_succ, IH. unfold uint64_incr.
    rewrite Zplus_mod_idemp_l. f_equal. lia.
Qed.

(** One call of the buffer keeps what was delivered, followed by what is
    queued, a subsequence of what was pushed. *)
Lemma Push_sublist sample b b' log n delivered P :
  Push sample b = Returned tt b' log n ->
  delivered ++ chan_queue (buffer b) `sublist_of` P ->
  delivered ++ chan_queue (buffer b') `sublist_of` P ++ [sample].
Proof.
  intros E HP.
  destruct (Z.lt_ge_cases (Len b) (chan_cap (buffer b))) as [Hfree|Hfull].
  - rewrite (Push_free _ _ Hfree) in E. injection E as <- _ _. simpl.
    rewrite app_assoc. by apply sublist_app.
  - rewrite (Push_full _ _ Hfull) in E. injection E as <- _ _. simpl.
    assert (Ht : delivered ++ tail (chan_queue (buffer b)) `sublist_of` P).
    { etrans; [|exact HP]. apply sublist_app; [done|].
      destruct (chan_queue (buffer b)); [done|]. simpl. by apply sublist_cons. }
    destruct (_ <? _).
    + rewrite app_assoc. by apply sublist_app.
    + by apply sublist_inserts_r.
Qed.

Lemma PopBatch_take_drop done pick maxCount b r b' log n :
  PopBatch done pick maxCount b = Returned r b' log n ->
  match r with Some batch => batch | None => [] end ++ chan_queue (buffer b')
  = chan_queue (buffer b).
Proof.
  intros E. destruct (Z.lt_ge_cases maxCount 0) as [Hneg|Hpos].
  { by rewrite PopBatch_negative in E. }
  destruct (chan_queue (buffer b)) as [|x q'] eqn:Hq.
  - rewrite (PopBatch_empty _ _ _ _ Hpos Hq) in E.
    destruct done; [|done]. injection E as <- <- _ _. by rewrite Hq.
  - rewrite (PopBatch_nonempty _ _ _ _ _ _ Hpos Hq) in E.
    destruct (done && pick); injection E as <- <- _ _.
    + by rewrite Hq.
    + cbv zeta. unfold with_queue. cbn [buffer chan_queue].
      apply (take_drop (S (Z.to_nat (maxCount - 1))) (x :: q')).
Qed.

Lemma run_sublist ops (tr : Trace Sample) P :
  retained tr `sublist_of` P ->
  retained (run ops tr) `sublist_of` P ++ pushed ops.
Proof.
  revert tr P. induction ops as [|[s|done pick maxCount] ops IH]; intros tr P HP.
  - simpl. by rewrite app_nil_r.
  - simpl. change (P ++ s :: pushed ops) with (P ++ [s] ++ pushed ops).
    rewrite app_assoc.
    destruct (Push_returns s (tr_buffer tr)) as (b' & log & n & E & _).
    rewrite E. apply IH. unfold retained in *. cbn [tr_delivered tr_buffer].
    by eapply Push_sublist.
  - simpl.
    destruct (PopBatch done pick maxCount (tr_buffer tr)) as [r b' log n| |] eqn:E;
      [|by apply IH..].
    pose proof (PopBatch_take_drop _ _ _ _ _ _ _ _ E) as Hr.
    destruct r as [batch|]; apply IH; unfold retained in *;
      cbn [tr_delivered tr_buffer].
    + by rewrite <- app_assoc, Hr.
    + simpl in Hr. by rewrite Hr.
Qed.

(** Every record pushed is accounted for: delivered, still queued, or
    counted as dropped. *)
Lemma run_account size ops (tr : Trace Sample) :
  reachable size (tr_buffer tr) ->
  (length (retained (run ops tr)) + tr_evictions (run ops tr)
   = length (retained tr) + tr_evictions tr + length (pushed ops))%nat.
Proof.
  revert tr. induction ops as [|[s|done pick maxCount] ops IH]; intros tr Hb.
  - simpl. lia.
  - simpl. destruct (reachable_inv _ _ Hb) as (Hcap & _ & Hlen & Hd).
    pose proof (Push_preserves size s (tr_buffer tr)) as Hpres.
    destruct (Z.lt_ge_cases (Len (tr_buffer tr)) (chan_cap (buffer (tr_buffer tr))))
      as [Hfree|Hfull].
    + rewrite (Push_free _ _ Hfree) in *. cbv beta iota zeta.
      rewrite IH by (by eapply Hpres).
      unfold retained, DroppedCount. cbn [tr_delivered tr_buffer tr_evictions].
      unfold with_queue. cbn [buffer chan_queue dropped].
      rewrite Z.eqb_refl, !length_app. simpl. lia.
    + rewrite (Push_full _ _ Hfull) in *. cbv beta iota zeta in *.
      rewrite IH by (by eapply Hpres).
      unfold retained, DroppedCount. cbn [tr_delivered tr_buffer tr_evictions].
      cbn [buffer chan_queue dropped].
      assert (Hmoved : (uint64_incr (dropped (tr_buffer tr)) =? dropped (tr_buffer tr))
                       = false).
      { apply Z.eqb_neq. unfold uint64_incr.
        destruct (Z.eq_dec (dropped (tr_buffer tr)) (uint64_modulus - 1)) as [->|?].
        - replace (uint64_modulus - 1 + 1) with uint64_modulus by lia.
          rewrite Z.mod_same by (unfold uint64_modulus; lia).
          unfold uint64_modulus. lia.
        - rewrite Z.mod_small; lia. }
      rewrite Hmoved. unfold Len, chan_len in *.
      destruct (chan_queue (buffer (tr_buffer tr))) as [|x q']; cbn [tail length] in *.
      all: match goal with |- context [?u <? ?v] => destruct (Z.ltb_spec u v) end;
        rewrite ?length_app; simpl in *; lia.
  - simpl.
    destruct (PopBatch done pick maxCount (tr_buffer tr)) as [r b' log n| |] eqn:E;
      [|by apply IH..].
    pose proof (PopBatch_take_drop _ _ _ _ _ _ _ _ E) as Hr.
    pose proof (PopBatch_preserves size done pick maxCount _ _ _ _ _ Hb E) as Hb'.
    destruct r as [batch|]; rewrite IH by done; unfold retained;
      cbn [tr_delivered tr_buffer tr_evictions]; rewrite <- Hr, !length_app;
      simpl; lia.
Qed.

Lemma sublist_same_length (l1 l2 : list Sample) :
  l1 `sublist_of` l2 -> length l1 = length l2 -> l1 = l2.
Proof.
  induction 1 as [|x l1 l2 _ IH|x l1 l2 Hsub _]; intros Hlen; [done|..].
  - f_equal. apply IH. simpl in Hlen. lia.
  - apply sublist_length in Hsub. simpl in Hlen. lia.
Qed.

(** C2. FIFO order among retained records.
    (a) If the pushed records all fit (no eviction: the counter stays 0 and
        nothing is logged), the buffer holds them in push order and
        [PopBatch] returns the oldest [maxCount] of them in that order and
        takes them out.
    (b) For any sequence of [Push] and [PopBatch] calls on a fresh buffer,
        the records delivered so far followed by the records still queued
        are a subsequence of the pushed records: evicted records never come
        back, survivors keep their relative order, none is delivered twice.
        The records missing are as many as the calls of [Push] that moved
        the drop counter; if there was none, what was delivered and what is
        queued is exactly what was pushed, in push order.
    (c) With evictions, what is left after pushing [l] is the newest [C]
        records of [l], in push order, and the counter is the number of
        records evicted (modulo [2^64]). *)
Theorem fifo_order (C : Z) l (ops : list (Op Sample)) :
  0 <= C ->
  exists b0, NewBackpressureBuffer C = Some b0
  /\ (Z.of_nat (length l) <= C ->
      exists b1 n,
        push_all l b0 = Returned tt b1 [] n
        /\ chan_queue (buffer b1) = l
        /\ DroppedCount b1 = 0
        /\ forall pick maxCount, 1 <= maxCount -> l <> [] ->
           exists b2 n',
             PopBatch false pick maxCount b1
             = Returned (Some (take (Z.to_nat maxCount) l)) b2 [] n'
             /\ chan_queue (buffer b2) = drop (Z.to_nat maxCount) l)
  /\ (let tr := run ops (mkTrace b0 [] 0) in
      retained tr `sublist_of` pushed ops
      /\ (length (retained tr) + tr_evictions tr = length (pushed ops))%nat
      /\ (tr_evictions tr = 0%nat -> retained tr = pushed ops))
  /\ (1 <= C ->
      exists b1 log n,
        push_all l b0 = Returned tt b1 log n
        /\ chan_queue (buffer b1) = drop (length l - Z.to_nat C) l
        /\ DroppedCount b1
           = Z.of_nat (length l - Z.to_nat C) mod uint64_modulus).
Proof.
  intros HC. unfold NewBackpressureBuffer, make_chan.
  destruct (Z.ltb_spec C 0) as [?|_]; [lia|].
  eexists. split; [reflexivity|]. split; [|split].
  - intros Hfit. rewrite push_all_no_evict
      by (unfold Len, chan_len; simpl; lia).
    eexists _, _. split; [reflexivity|]. simpl. split; [done|]. split; [done|].
    intros pick maxCount Hmax Hne. destruct l as [|x q']; [done|].
    erewrite PopBatch_nonempty by (simpl; first [lia | reflexivity]).
    simpl andb. cbv zeta.
    replace (S (Z.to_nat (maxCount - 1))) with (Z.to_nat maxCount) by lia.
    eexists _, _. split; reflexivity.
  - cbv zeta.
    assert (Hsub : retained (run ops (mkTrace (mkBuffer (mkChan C []) C 0) [] 0))
                     `sublist_of` pushed ops).
    { apply (run_sublist ops _ []). by unfold retained. }
    assert (Hacc := run_account C ops (mkTrace (mkBuffer (mkChan C []) C 0) [] 0)
                      ltac:(apply reach_new, NewBackpressureBuffer_spec; lia)).
    unfold retained at 2 in Hacc. cbn [tr_delivered tr_buffer tr_evictions] in Hacc.
    cbn [buffer chan_queue app length] in Hacc.
    split; [done|]. split; [lia|].
    intros H0. apply sublist_same_length; [done | lia].
  - intros HC1.
    edestruct (push_all_spec l (mkBuffer (mkChan C []) C 0)) as (log & n & E);
      [simpl; lia | unfold Len, chan_len; simpl; lia | reflexivity |].
    simpl in E. eexists _, _, _. split; [exact E|]. simpl. split; [done|].
    rewrite iter_uint64_incr by (unfold uint64_modulus; lia). done.
Qed.

(** [PopBatch] writes nothing to the log. *)
Lemma PopBatch_no_log done pick maxCount b r b' log n :
  PopBatch done pick maxCount b = Returned r b' log n -> log = [].
Proof.
  intros E. destruct (Z.lt_ge_cases maxCount 0) as [Hneg|Hpos].
  { by rewrite PopBatch_negative in E. }
  destruct (chan_queue (buffer b)) as [|x q'] eqn:Hq.
  - rewrite (PopBatch_empty _ _ _ _ Hpos Hq) in E.
    destruct done; [|done]. by injection E as _ _ <- _.
  - rewrite (PopBatch_nonempty _ _ _ _ _ _ Hpos Hq) in E.
    destruct (done && pick); by injection E as _ _ <- _.
Qed.

(** C3. [PopBatch] semantics, for [0 <= maxCount].
    - The call is parked exactly when the buffer is empty and the context is
      not cancelled; on cancellation it returns [nil] and leaves the buffer
      as it was, and it returns [nil] in no other case.
    - Once the buffer holds a record (and the cancellation arm is not
      taken), the call returns without waiting: the batch is the first
      record and up to [maxCount - 1] more, in queue order, fewer if the
      buffer runs out; the batch leaves the buffer and nothing is logged.
    - A record pushed into the empty buffer is what the next call returns.
    - For [maxCount = 10] a batch has at most 10 records, and fewer than 10
      only if it is the whole content of the buffer, which is then empty. *)
Theorem PopBatch_semantics done pick maxCount b :
  0 <= maxCount ->
  let q := chan_queue (buffer b) in
  (PopBatch done pick maxCount b = Blocked <-> q = [] /\ done = false)
  /\ (done = true -> q = [] \/ pick = true ->
      PopBatch done pick maxCount b = Returned None b [] 2%nat)
  /\ (forall b' log n,
        PopBatch done pick maxCount b = Returned None b' log n ->
        done = true /\ b' = b)
  /\ (q <> [] -> done && pick = false ->
      exists n,
        PopBatch done pick maxCount b
        = Returned (Some (take 1 q ++ take (Z.to_nat (maxCount - 1)) (drop 1 q)))
            (with_queue b (drop (Z.to_nat (maxCount - 1)) (drop 1 q))) [] n)
  /\ (forall sample pick', q = [] -> 1 <= chan_cap (buffer b) ->
      exists b1 n1 b2 n2,
        Push sample b = Returned tt b1 [] n1
        /\ PopBatch false pick' maxCount b1 = Returned (Some [sample]) b2 [] n2
        /\ chan_queue (buffer b2) = [])
  /\ (forall batch b' log n,
        PopBatch done pick 10 b = Returned (Some batch) b' log n ->
        (length batch <= 10)%nat
        /\ ((length batch < 10)%nat ->
            chan_queue (buffer b') = [] /\ batch = q)).
Proof.
  intros Hmax q. subst q.
  destruct (chan_queue (buffer b)) as [|x q'] eqn:Hq.
  - rewrite (PopBatch_empty done pick maxCount b Hmax Hq).
    rewrite (PopBatch_empty done pick 10 b ltac:(lia) Hq).
    split; [|split; [|split; [|split; [|split]]]].
    + destruct done; split; try done. by intros [_ ?].
    + by intros ->.
    + destruct done; [|done]. by intros ? ? ? [= <- _ _].
    + done.
    + intros sample pick' _ Hcap.
      rewrite Push_free by (unfold Len, chan_len; rewrite Hq; simpl; lia).
      rewrite Hq. eexists _, _, _, _. split; [reflexivity|].
      erewrite PopBatch_nonempty by (simpl; first [lia | reflexivity]).
      simpl. rewrite take_nil, drop_nil. split; reflexivity.
    + by destruct done.
  - rewrite (PopBatch_nonempty done pick maxCount b x q' Hmax Hq).
    rewrite (PopBatch_nonempty done pick 10 b x q' ltac:(lia) Hq).
    split; [|split; [|split; [|split; [|split]]]].
    + split; [|by intros [? _]]. by destruct (done && pick).
    + intros -> [?| ->]; [done|]. done.
    + destruct done, pick; simpl; try done. by intros ? ? ? [= <- _ _].
    + intros _ ->. simpl. rewrite drop_0. by eexists.
    + done.
    + destruct (done && pick); [done|]. cbv zeta.
      intros batch b' log n [= <- <- _ _].
      change (Z.to_nat (10 - 1)) with 9%nat.
      simpl length. rewrite length_take. unfold with_queue. cbn [buffer chan_queue].
      split; [lia|]. intros Hlt.
      rewrite drop_ge, take_ge by lia. done.
Qed.

(** A batch holds at least one record, and at most [maxCount] of them when
    [maxCount] is at least one. *)
Lemma PopBatch_batch_length done pick maxCount b batch b' log n :
  0 <= maxCount ->
  PopBatch done pick maxCount b = Returned (Some batch) b' log n ->
  (1 <= length batch)%nat
  /\ (1 <= maxCount -> Z.of_nat (length batch) <= maxCount).
Proof.
  intros Hmax. destruct (chan_queue (buffer b)) as [|x q'] eqn:Hq.
  - rewrite (PopBatch_empty done pick maxCount b Hmax Hq). by destruct done.
  - rewrite (PopBatch_nonempty done pick maxCount b x q' Hmax Hq).
    destruct (done && pick); [done|]. cbv zeta. intros [= <- _ _ _].
    simpl length. rewrite length_take. split; lia.
Qed.

(** C9. A batch is never empty.  For [0 <= maxCount], a result of
    [PopBatch] that is not [nil] holds at least one record.  With
    [maxCount = 0] the call still waits for a record (it is parked on an
    empty buffer) and returns exactly one, the oldest; so a batch holds at
    most [maxCount] records only if [1 <= maxCount]. *)
Theorem PopBatch_nonempty_batch done pick maxCount b :
  0 <= maxCount ->
  (forall batch b' log n,
      PopBatch done pick maxCount b = Returned (Some batch) b' log n ->
      (1 <= length batch)%nat
      /\ (1 <= maxCount -> Z.of_nat (length batch) <= maxCount))
  /\ (chan_queue (buffer b) = [] -> done = false ->
      PopBatch done pick 0 b = Blocked)
  /\ (forall x q', chan_queue (buffer b) = x :: q' -> done && pick = false ->
      exists n,
        PopBatch done pick 0 b = Returned (Some [x]) (with_queue b q') [] n
        /\ 0 < Z.of_nat (length [x])).
Proof.
  intros Hmax. split; [|split].
  - intros batch b' log n. by apply PopBatch_batch_length.
  - intros Hq ->. by rewrite (PopBatch_empty false pick 0 b ltac:(lia) Hq).
  - intros x q' Hq Hpick.
    rewrite (PopBatch_nonempty done pick 0 b x q' ltac:(lia) Hq), Hpick.
    simpl. rewrite drop_0. eexists. split; [reflexivity | lia].
Qed.

(** C5. Buffer bounds and non-blocking push.  In every reachable state of
    a buffer built with capacity [size], whatever interleaving of channel
    operations led to it, [Len] is between 0 and [size], and [bufferSize]
    is still [size].  [Push] returns from every state and for every record:
    it is never parked, never panics, and runs at most six primitive
    operations however full the buffer is.  The state [Push] leaves, and
    the state any returning [PopBatch] leaves, is reachable again, so the
    bound holds there too. *)
Theorem buffer_bounded size b sample :
  reachable size b ->
  (0 <= Len b <= size /\ bufferSize b = size)
  /\ (exists b' log n,
        Push sample b = Returned tt b' log n
        /\ (n <= 6)%nat /\ reachable size b' /\ 0 <= Len b' <= size)
  /\ (forall b0 : BackpressureBuffer Sample,
        exists b' log n, Push sample b0 = Returned tt b' log n /\ (n <= 6)%nat)
  /\ (forall done pick maxCount r b' log n,
        PopBatch done pick maxCount b = Returned r b' log n ->
        reachable size b' /\ 0 <= Len b' <= size).
Proof.
  intros Hb. split; [|split; [|split]].
  - destruct (reachable_inv _ _ Hb) as (_ & ? & ? & _). done.
  - destruct (Push_returns sample b) as (b' & log & n & E & Hn & _).
    exists b', log, n. split; [done|]. split; [done|].
    assert (Hb' : reachable size b') by (by eapply Push_preserves).
    split; [done|]. by destruct (reachable_inv _ _ Hb') as (_ & _ & ? & _).
  - intros b0. destruct (Push_returns sample b0) as (b' & log & n & E & Hn & _).
    by exists b', log, n.
  - intros done pick maxCount r b' log n E.
    assert (Hb' : reachable size b') by (by eapply PopBatch_preserves).
    split; [done|]. by destruct (reachable_inv _ _ Hb') as (_ & _ & ? & _).
Qed.

(** C6, as amended.  [Push] logs the backpressure warning exactly when it
    dropped a record and the 64-bit counter it then shows is a multiple of
    10, once and not more.  As long as the counter does not wrap this is
    exactly when the counter is a positive multiple of 10: starting from a
    fresh buffer, the warning follows drops 10, 20, 30, ... and does not
    follow drops 1-9, 11-19, ...  (When the counter wraps from [2^64 - 1]
    to 0 the warning is logged as well.) *)
Theorem warning_cadence size b sample :
  reachable size b ->
  (exists b' log n,
      Push sample b = Returned tt b' log n
      /\ (Len b < size ->
          DroppedCount b' = DroppedCount b /\ backpressure_warnings log = 0%nat)
      /\ (size <= Len b ->
          DroppedCount b' = (DroppedCount b + 1) mod uint64_modulus
          /\ backpressure_warnings log
             = if DroppedCount b' mod 10 =? 0 then 1%nat else 0%nat)
      /\ (DroppedCount b < uint64_modulus - 1 ->
          existsb is_backpressure_warning log = true
          <-> size <= Len b /\ 0 < DroppedCount b' /\ DroppedCount b' mod 10 = 0))
  /\ (forall C l,
        1 <= C -> C <= Z.of_nat (length l) ->
        let drops := Z.of_nat (length l) - C in
        drops + 1 < uint64_modulus ->
        exists b0 b1 log1 n1 b2 log2 n2,
          NewBackpressureBuffer C = Some b0
          /\ push_all l b0 = Returned tt b1 log1 n1
          /\ DroppedCount b1 = drops
          /\ Push sample b1 = Returned tt b2 log2 n2
          /\ DroppedCount b2 = drops + 1
          /\ backpressure_warnings log2
             = if (drops + 1) mod 10 =? 0 then 1%nat else 0%nat).
Proof.
  assert (Hstep : forall size b, reachable size b -> exists b' log n,
      Push sample b = Returned tt b' log n
      /\ (Len b < size ->
          DroppedCount b' = DroppedCount b /\ backpressure_warnings log = 0%nat)
      /\ (size <= Len b ->
          DroppedCount b' = (DroppedCount b + 1) mod uint64_modulus
          /\ backpressure_warnings log
             = if DroppedCount b' mod 10 =? 0 then 1%nat else 0%nat)
      /\ (DroppedCount b < uint64_modulus - 1 ->
          existsb is_backpressure_warning log = true
          <-> size <= Len b /\ 0 < DroppedCount b' /\ DroppedCount b' mod 10 = 0)).
  { clear size b. intros size b Hb.
    destruct (reachable_inv _ _ Hb) as (Hcap & _ & Hlen & Hd).
    unfold DroppedCount.
    destruct (Z.lt_ge_cases (Len b) (chan_cap (buffer b))) as [Hfree|Hfull].
    - rewrite (Push_free _ _ Hfree). eexists _, _, _. split; [reflexivity|].
      simpl. split; [done|]. split; [lia|]. intros _. split; [done|]. lia.
    - rewrite (Push_full _ _ Hfull). eexists _, _, _. split; [reflexivity|].
      cbn [dropped]. unfold uint64_incr. split; [lia|].
      assert (Hw : forall d,
        backpressure_warnings
          ((if Z.of_nat (length (tail (chan_queue (buffer b)))) <? chan_cap (buffer b)
            then [] else [Log WarnLevel failed_to_add])
           ++ (if d mod 10 =? 0 then [Log WarnLevel (backpressure_warning d)] else []))
        = if d mod 10 =? 0 then 1%nat else 0%nat).
      { intros d. by destruct (_ <? _), (_ =? 0). }
      assert (He : forall d,
        existsb is_backpressure_warning
          ((if Z.of_nat (length (tail (chan_queue (buffer b)))) <? chan_cap (buffer b)
            then [] else [Log WarnLevel failed_to_add])
           ++ (if d mod 10 =? 0 then [Log WarnLevel (backpressure_warning d)] else []))
        = (d mod 10 =? 0)).
      { intros d. by destruct (_ <? _), (_ =? 0). }
      split; [intros _; split; [done | apply Hw]|].
      intros Hnowrap. rewrite He, Z.eqb_eq.
      rewrite (Z.mod_small (dropped b + 1) uint64_modulus) by lia.
      split; [intros ?; lia | by intros (_ & _ & ?)]. }
  intros Hb. split; [by apply Hstep|].
  intros C l HC Hl drops Hdrops. subst drops.
  unfold NewBackpressureBuffer, make_chan.
  destruct (Z.ltb_spec C 0) as [?|_]; [lia|].
  destruct (push_all_spec l (mkBuffer (mkChan C []) C 0)
              (length l - Z.to_nat C)%nat) as (log1 & n1 & E1);
    [simpl; lia | unfold Len, chan_len; simpl; lia | reflexivity |].
  cbn [buffer chan_queue chan_cap bufferSize dropped app] in E1.
  rewrite iter_uint64_incr in E1 by (unfold uint64_modulus; lia).
  rewrite Z.add_0_l, Z.mod_small in E1 by lia.
  match type of E1 with _ = Returned _ ?b1 _ _ =>
    assert (Hb1 : reachable C b1) end.
  { eapply push_all_preserves; [|exact E1].
    apply reach_new, NewBackpressureBuffer_spec. lia. }
  destruct (Hstep _ _ Hb1) as (b2 & log2 & n2 & E2 & _ & Hfull & _).
  eexists _, _, _, _, b2, log2, n2. split; [reflexivity|]. split; [exact E1|].
  unfold DroppedCount in *. cbn [dropped] in *. split; [lia|]. split; [exact E2|].
  destruct Hfull as [Hd Hw].
  { unfold Len, chan_len. cbn [buffer chan_queue]. rewrite length_drop. lia. }
  rewrite Z.mod_small in Hd by lia.
  assert (Hk : Z.of_nat (length l - Z.to_nat C) = Z.of_nat (length l) - C) by lia.
  rewrite Hk in Hd. by rewrite Hw, Hd.
Qed.

(** A buffer of capacity 1 into which [N] records were pushed has dropped
    [N - 1] of them. *)
Lemma counter_reaches (N : nat) x :
  (1 <= N)%nat ->
  reachable 1 (mkBuffer (mkChan 1 [x]) 1 (Z.of_nat (N - 1) mod uint64_modulus)).
Proof.
  intros HN.
  destruct (push_all_spec (replicate N x) (mkBuffer (mkChan 1 []) 1 0) (N - 1))
    as (log & n & E).
  - cbn [buffer chan_cap]. lia.
  - unfold Len, chan_len. cbn [buffer chan_queue chan_cap length]. lia.
  - cbn [buffer chan_queue chan_cap app]. rewrite length_replicate. lia.
  - cbn [buffer chan_queue chan_cap bufferSize dropped app] in E.
    rewrite drop_replicate in E.
    replace (N - (N - 1))%nat with 1%nat in E by lia.
    rewrite iter_uint64_incr, Z.add_0_l in E by (unfold uint64_modulus; lia).
    eapply push_all_preserves; [|exact E].
    apply reach_new, NewBackpressureBuffer_spec. lia.
Qed.

End WithSample.

Lemma drop_oldest_witness :
  exists b0 b1 log n,
    NewBackpressureBuffer (Sample := Z) 2 = Some b0
    /\ push_all [10; 20; 30] b0 = Returned tt b1 log n
    /\ chan_queue (buffer b1) = [20; 30]
    /\ Len b1 = 2
    /\ DroppedCount b1 = 1.
Proof.
  refine (proj1 (drop_oldest 2 [10; 20; 30] _ _)).
  - lia.
  - reflexivity.
Defined.

Lemma fifo_order_witness :
  let ops := [OpPush 1; OpPush 2; OpPopBatch false false 1; OpPush 3; OpPush 4;
              OpPush 5; OpPush 6; OpPopBatch false false 10] in
  0 <= 3
  /\ retained (run ops (mkTrace (mkBuffer (mkChan 3 []) 3 0) [] 0)) = [1; 4; 5; 6]
  /\ exists b0 : BackpressureBuffer Z,
      NewBackpressureBuffer 3 = Some b0
      /\ retained (run ops (mkTrace b0 [] 0)) `sublist_of` pushed ops.
Proof.
  intros ops. split; [lia|]. split; [reflexivity|].
  destruct (fifo_order 3 [1; 2] ops ltac:(lia)) as (b0 & H0 & _ & (H & _) & _).
  exists b0. split; [exact H0 | exact H].
Defined.

Lemma PopBatch_semantics_witness :
  let b := mkBuffer (mkChan 5 [1; 2; 3]) 5 0 in
  0 <= 10
  /\ exists n, PopBatch false false 10 b
              = Returned (Some [1; 2; 3]) (with_queue b []) [] n.
Proof.
  intros b. split; [lia|].
  destruct (PopBatch_semantics false false 10 b ltac:(lia))
    as (_ & _ & _ & H & _).
  apply H; [discriminate | reflexivity].
Defined.

Lemma PopBatch_nonempty_batch_witness :
  let b := mkBuffer (mkChan 5 [1; 2; 3]) 5 0 in
  0 <= 0
  /\ exists n, PopBatch false false 0 b
              = Returned (Some [1]) (with_queue b [2; 3]) [] n
              /\ 0 < Z.of_nat (length [1]).
Proof.
  intros b. split; [lia|].
  destruct (PopBatch_nonempty_batch false false 0 b ltac:(lia)) as (_ & _ & H).
  apply H; reflexivity.
Defined.

Lemma buffer_bounded_witness :
  let b := mkBuffer (mkChan 2 []) 2 0 in
  reachable (Sample := Z) 2 b
  /\ 0 <= Len b <= 2
  /\ exists b' log n, Push 7 b = Returned tt b' log n /\ (n <= 6)%nat.
Proof.
  intros b.
  assert (Hb : reachable (Sample := Z) 2 b) by (apply reach_new; reflexivity).
  split; [exact Hb|].
  destruct (buffer_bounded 2 b 7 Hb) as ((Hlen & _) & _ & H & _).
  split; [exact Hlen | apply H].
Defined.

Lemma warning_cadence_witness :
  let b := mkBuffer (mkChan 1 [7]) 1 9 in
  reachable (Sample := Z) 1 b
  /\ exists b' log n,
      Push 8 b = Returned tt b' log n
      /\ DroppedCount b' = 10 /\ backpressure_warnings log = 1%nat.
Proof.
  intros b.
  assert (Hb : reachable (Sample := Z) 1 b) by apply (counter_reaches 10 7 ltac:(lia)).
  split; [exact Hb|].
  destruct (warning_cadence 1 b 8 Hb) as ((b' & log & n & E & _ & H & _) & _).
  exists b', log, n. split; [exact E|].
  destruct H as [Hd Hw]; [unfold Len, chan_len; simpl; lia|].
  change (DroppedCount b' = 10) in Hd. rewrite Hd in Hw. split; [exact Hd | exact Hw].
Defined.

(** C6 as stated fails when the counter wraps.  A buffer of capacity 1
    that has dropped [2^64 - 1] records is reachable; its next [Push] drops
    one more, the counter reads 0, and the warning is logged although 0 is
    not a positive multiple of 10. *)
Lemma warning_cadence_counterexample :
  let b := mkBuffer (mkChan 1 [7]) 1 (uint64_modulus - 1) in
  reachable (Sample := Z) 1 b
  /\ (exists b' n,
        Push 8 b = Returned tt b' [Log WarnLevel (backpressure_warning 0)] n
        /\ DroppedCount b' = 0)
  /\ ~ warning_on_positive_multiples (Sample := Z).
Proof.
  intros b.
  assert (Hb : reachable (Sample := Z) 1 b).
  { pose proof (counter_reaches (Sample := Z) (Z.to_nat uint64_modulus) 7) as H.
    assert (HM : 1 <= uint64_modulus) by done.
    replace (Z.of_nat (Z.to_nat uint64_modulus - 1) mod uint64_modulus)
      with (uint64_modulus - 1) in H by (rewrite Z.mod_small; lia).
    apply H. lia. }
  assert (E : Push 8 b
              = Returned tt (mkBuffer (mkChan 1 [8]) 1 0)
                  [Log WarnLevel (backpressure_warning 0)] 5%nat)
    by (vm_compute; reflexivity).
  split; [exact Hb|]. split; [by eexists _, _|].
  intros Hspec. destruct (Hspec 1 b 8 _ _ _ Hb E) as [H _].
  destruct H as (_ & Hpos & _); [reflexivity|].
  unfold DroppedCount in Hpos. simpl in Hpos. lia.
Qed.

End BackpressureFacts.

(** * Properties of the client *)

Module ClientFacts.
Import Client.

(** ** The reconnect schedule *)

Lemma Duration_of_float64_floor x :
  (0 <= x)%Q -> Duration_of_float64 x = Qfloor x.
Proof.
  intros H. unfold Duration_of_float64, Qfloor. destruct x as [n d]. simpl.
  apply Z.quot_div_nonneg; [|lia]. unfold Qle in H. simpl in H. lia.
Qed.

Lemma grow_backoff_spec b : grow_backoff b = Z.min (2 * b) maxBackoff.
Proof.
  unfold grow_backoff, Duration_of_float64, float64_of_Duration, backoffFactor.
  cbn [Qmult Qnum Qden inject_Z Pos.mul]. rewrite Z.quot_1_r.
  destruct (Z.gtb_spec (b * 2) maxBackoff); lia.
Qed.

Lemma schedule_0 : schedule 0 = initialBackoff.
Proof. reflexivity. Qed.

Lemma schedule_S k : grow_backoff (schedule k) = schedule (S k).
Proof.
  rewrite grow_backoff_spec. unfold schedule.
  rewrite Nat2Z.inj_succ, Z.pow_succ_r by lia.
  unfold maxBackoff, Minute, Second. lia.
Qed.

Lemma schedule_bounds k :
  initialBackoff <= schedule k <= maxBackoff /\ schedule k <= schedule (S k).
Proof.
  unfold schedule. rewrite Nat2Z.inj_succ, Z.pow_succ_r by lia.
  pose proof (Z.pow_pos_nonneg 2 (Z.of_nat k)).
  unfold initialBackoff, maxBackoff, Minute, Second. lia.
Qed.

(** Every value of the schedule is a whole number of seconds. *)
Lemma schedule_seconds k : exists c, schedule k = c * Second.
Proof.
  unfold schedule, maxBackoff, Minute.
  exists (Z.min (2 ^ Z.of_nat k) 120). unfold Second. lia.
Qed.

Lemma schedule_capped k : (7 <= k)%nat -> schedule k = maxBackoff.
Proof.
  intros Hk. unfold schedule.
  assert (2 ^ 7 <= 2 ^ Z.of_nat k) by (apply Z.pow_le_mono_r; lia).
  change (2 ^ 7) with 128 in *. unfold maxBackoff, Minute, Second. lia.
Qed.

Lemma Run_snoc attempts a : Run (attempts ++ [a]) = Run_step (Run attempts) a.
Proof. unfold Run. by rewrite fold_left_app. Qed.

(** The stored backoff is always a value of the schedule. *)
Lemma Run_step_schedule st a :
  (exists k, backoff st = schedule k) ->
  exists k, backoff (Run_step st a) = schedule k.
Proof.
  intros [k Hk]. unfold Run_step. destruct (returned st); [by exists k|].
  destruct a; cbn [backoff].
  - by exists k.
  - exists (S k). by rewrite Hk, schedule_S.
  - by exists 0%nat.
Qed.

Lemma fold_schedule attempts st :
  (exists k, backoff st = schedule k) ->
  exists k, backoff (fold_left Run_step attempts st) = schedule k.
Proof.
  revert st. induction attempts as [|a attempts IH]; intros st Hst; [done|].
  simpl. by apply IH, Run_step_schedule.
Qed.

Lemma Run_schedule attempts : exists k, backoff (Run attempts) = schedule k.
Proof. apply fold_schedule. by exists 0%nat. Qed.

(** A run of failures walks along the schedule. *)
Lemma fold_failures fails st k :
  Forall is_failure fails -> returned st = false -> backoff st = schedule k ->
  backoff (fold_left Run_step fails st) = schedule (k + length fails)
  /\ returned (fold_left Run_step fails st) = false.
Proof.
  intros Hf. revert st k. induction Hf as [|a fails Ha _ IH]; intros st k Hr Hb.
  - simpl. by rewrite Nat.add_0_r.
  - destruct a as [|err r|]; try done. simpl.
    replace (k + S (length fails))%nat with (S k + length fails)%nat by lia.
    apply IH; unfold Run_step; rewrite Hr; cbn [returned backoff]; [done|].
    by rewrite Hb, schedule_S.
Qed.

(** The stored backoff does not depend on the random draws. *)
Lemma fold_forget_draw attempts st st' :
  backoff st = backoff st' -> returned st = returned st' ->
  backoff (fold_left Run_step attempts st)
  = backoff (fold_left Run_step (map forget_draw attempts) st').
Proof.
  revert st st'. induction attempts as [|a attempts IH]; intros st st' Hb Hr; [done|].
  simpl. apply IH; unfold Run_step; rewrite <- Hr;
    destruct (returned st) eqn:E; rewrite ?E; try done;
    destruct a; cbn [forget_draw backoff returned]; congruence.
Qed.

Lemma jitter_multiplier_bounds r :
  (0 <= r)%Q -> (r < 1)%Q ->
  (8 # 10 <= jitter_multiplier jitter r)%Q /\ (jitter_multiplier jitter r <= 12 # 10)%Q.
Proof. intros. unfold jitter_multiplier, jitter. split; lra. Qed.

(** The jittered delay is within 20% of the duration, for a duration that
    is a whole number of seconds. *)
Lemma addJitter_bounds c r :
  0 < c -> (0 <= r)%Q -> (r < 1)%Q ->
  8 * (c * Second) <= 10 * addJitter (c * Second) jitter r <= 12 * (c * Second).
Proof.
  intros Hc H0 H1. unfold addJitter. cbv zeta.
  destruct (jitter_multiplier_bounds r H0 H1) as [Hlo Hhi].
  set (m := jitter_multiplier jitter r) in *.
  set (b := c * Second).
  assert (Hb : 0 < b) by (unfold b, Second; lia).
  assert (HbQ : (inject_Z 0 < inject_Z b)%Q) by (rewrite <- Zlt_Qlt; exact Hb).
  change (inject_Z 0) with 0%Q in HbQ.
  unfold float64_of_Duration.
  assert (Hx : (0 <= inject_Z b * m)%Q) by nra.
  rewrite (Duration_of_float64_floor _ Hx).
  split.
  - assert (Hq : c * 800000000 <= Qfloor (inject_Z b * m)).
    { rewrite <- (Qfloor_Z (c * 800000000)). apply Qfloor_resp_le.
      assert (Hd : (inject_Z (c * 800000000) == (8 # 10) * inject_Z b)%Q).
      { unfold b, Second, Qeq. cbn [Qnum Qden Qmult inject_Z]. lia. }
      rewrite Hd. nra. }
    unfold b, Second in *. lia.
  - pose proof (Qfloor_le (inject_Z b * m)) as Hfl.
    set (d := Qfloor (inject_Z b * m)) in *.
    rewrite Zle_Qle, !inject_Z_mult.
    change (inject_Z 12) with (12 # 1)%Q. change (inject_Z 10) with (10 # 1)%Q.
    fold b. nra.
Qed.

(** In binary64 the doubling of the stored backoff is exact on every value
    of the schedule: the rational model of [grow_backoff] is the code. *)
Lemma binary64_grow_backoff_exact k :
  Binary64.b64_grow_backoff (schedule k) = Some (grow_backoff (schedule k)).
Proof.
  destruct (le_lt_dec 7 k) as [Hk|Hk].
  - rewrite (schedule_capped k Hk). vm_compute. reflexivity.
  - do 7 (destruct k as [|k]; [vm_compute; reflexivity|]). lia.
Qed.

(** In binary64 the extreme draws give exactly 80% and 120% of every value
    of the schedule: both ends of the range are reached. *)
Lemma binary64_addJitter_extremes k :
  Binary64.b64_addJitter (schedule k) Binary64.b64_jitter (Binary64.of_Z 0)
  = Some (8 * schedule k / 10)
  /\ Binary64.b64_addJitter (schedule k) Binary64.b64_jitter Binary64.below_one
     = Some (12 * schedule k / 10).
Proof.
  destruct (le_lt_dec 7 k) as [Hk|Hk].
  - rewrite (schedule_capped k Hk). vm_compute. done.
  - do 7 (destruct k as [|k]; [vm_compute; done|]). lia.
Qed.

(** C4. The backoff schedule of [Run], for every list of attempts.
    - The stored backoff starts at the floor of one second and always lies
      between the floor and the ceiling of two minutes.
    - After [k] consecutive failures, from the start or from a successful
      connect, it is [min (2^k seconds) (2 minutes)]: it doubles with
      each failure, is capped, and never decreases on a failure.
    - A successful connect resets it to the floor.
    - The delay slept after a failure is [addJitter] of the stored backoff:
      the backoff times a multiplier between 0.8 and 1.2, truncated, hence
      between 80% and 120% of it.
    - The stored backoff does not depend on the draws: the jitter is
      applied to each delay and never fed back. *)
Theorem backoff_schedule (attempts : list Attempt) :
  let st := Run attempts in
  backoff (Run []) = 1 * Second
  /\ 1 * Second <= backoff st <= 2 * Minute
  /\ (forall fails, Forall is_failure fails ->
      backoff (Run fails) = schedule (length fails))
  /\ (returned st = false ->
      forall fails, Forall is_failure fails ->
      backoff (Run (attempts ++ ConnectSucceeds :: fails)) = schedule (length fails))
  /\ (forall k, schedule k <= schedule (S k) <= maxBackoff)
  /\ (forall err r,
        backoff st <= backoff (Run (attempts ++ [ConnectFails err r])))
  /\ (returned st = false ->
      backoff (Run (attempts ++ [ConnectSucceeds])) = initialBackoff)
  /\ (returned st = false ->
      forall err r, (0 <= r)%Q -> (r < 1)%Q ->
      let d := addJitter (backoff st) jitter r in
      sleeps (actions (Run (attempts ++ [ConnectFails err r])))
      = sleeps (actions st) ++ [d]
      /\ (exists m, (8 # 10 <= m)%Q /\ (m <= 12 # 10)%Q
                    /\ d = Duration_of_float64 (float64_of_Duration (backoff st) * m)%Q)
      /\ 8 * backoff st <= 10 * d <= 12 * backoff st)
  /\ backoff st = backoff (Run (map forget_draw attempts)).
Proof.
  intros st. subst st.
  destruct (Run_schedule attempts) as [k Hk].
  destruct (schedule_bounds k) as [Hk1 Hk2].
  split; [reflexivity|].
  split; [rewrite Hk; unfold initialBackoff, maxBackoff in Hk1; lia|].
  split; [|split; [|split; [|split; [|split; [|split]]]]].
  - intros fails Hf. by apply (fold_failures fails _ 0%nat Hf).
  - intros Hr fails Hf.
    change (attempts ++ ConnectSucceeds :: fails)
      with (attempts ++ [ConnectSucceeds] ++ fails).
    rewrite app_assoc. unfold Run at 1. rewrite fold_left_app.
    fold (Run (attempts ++ [ConnectSucceeds])). rewrite Run_snoc.
    apply (fold_failures fails _ 0%nat Hf); unfold Run_step; by rewrite Hr.
  - intros j. destruct (schedule_bounds j) as [_ ?].
    destruct (schedule_bounds (S j)) as [? _]. lia.
  - intros err r. rewrite Run_snoc. unfold Run_step.
    destruct (returned (Run attempts)); [done|]. cbn [backoff].
    rewrite Hk, schedule_S. done.
  - intros Hr. rewrite Run_snoc. unfold Run_step. by rewrite Hr.
  - intros Hr err r H0 H1 d. subst d. split; [|split].
    + rewrite Run_snoc. unfold Run_step. rewrite Hr. cbn [actions].
      unfold sleeps. rewrite flat_map_app. simpl. done.
    + exists (jitter_multiplier jitter r).
      destruct (jitter_multiplier_bounds r) as [? ?]; done.
    + rewrite Hk. destruct (schedule_seconds k) as [c Hc]. rewrite Hc in *.
      apply addJitter_bounds; [|done..].
      unfold initialBackoff, Second in *. lia.
  - by apply fold_forget_draw.
Qed.

Lemma backoff_schedule_witness :
  let attempts := [ConnectFails "dial" (1 # 2); ConnectFails "dial" 0;
                   ConnectFails "dial" (9 # 10); ConnectSucceeds] in
  Forall is_failure (take 3 attempts)
  /\ backoff (Run (take 3 attempts)) = 8 * Second
  /\ sleeps (actions (Run attempts)) = [1 * Second; 1600 * Millisecond; 4640 * Millisecond]
  /\ backoff (Run attempts) = 1 * Second.
Proof.
  intros attempts.
  assert (Hf : Forall is_failure (take 3 attempts)) by (repeat constructor).
  split; [exact Hf|].
  destruct (backoff_schedule attempts) as (_ & _ & H & _).
  split; [exact (H _ Hf)|]. split; reflexivity.
Defined.

(** ** The writer, the reader, the control-message handler *)

Section WithSample.

Context {Sample : Type}.
Variable marshalSample : Sample -> option JSON.
Variable unmarshal : string -> ControlMessage + string.

Implicit Types (c : Client Sample) (t : Turn Sample) (samples batch : list Sample).

Lemma and_then_conn log (r : Client Sample * list LogEntry * Exit) :
  conn (and_then log r).1.1 = conn r.1.1.
Proof. done. Qed.

Lemma feed_conn l c : conn (feed l c).1 = conn c.
Proof. unfold feed. by destruct (Backpressure.push_all l (buffer c)). Qed.

(** [sendSamples] writes at most one frame, and if it does, the frame is
    the envelope of the whole batch, in order. *)
Lemma sendSamples_spec c samples ok old :
  conn c = Some (mkConn old) -> samples <> [] ->
  match mapM marshalSample samples with
  | Some encoded =>
      sendSamples marshalSample c samples ok
      = if ok
        then Some (mkClient (apiURL c) (token c) (hostID c)
                     (Some (mkConn (old ++ [TextFrame (envelope encoded)]))) (buffer c),
                   None)
        else Some (c, Some "failed to write message")
  | None =>
      sendSamples marshalSample c samples ok = Some (c, Some "failed to marshal samples")
  end.
Proof.
  intros Hc Hne. unfold sendSamples, marshal_AgentMessage. cbn [msg_Samples msg_Type].
  destruct (mapM marshalSample samples) as [encoded|] eqn:E; [|done].
  assert (Hlen : length samples = length encoded) by (by eapply length_mapM).
  destruct encoded as [|e encoded].
  { destruct samples; [done | simpl in Hlen; lia]. }
  unfold conn_write. rewrite Hc. by destruct ok.
Qed.

(** Whatever the script, the frames [writeLoop] adds to the connection are
    closes, pings and well-formed envelopes. *)
Lemma writeLoop_frames script c old :
  conn c = Some (mkConn old) ->
  exists new,
    conn (writeLoop marshalSample script c).1.1 = Some (mkConn (old ++ new))
    /\ Forall (writer_frame marshalSample) new.
Proof.
  revert c old. induction script as [|t script IH]; intros c old Hc.
  { exists []. by rewrite app_nil_r. }
  cbn [writeLoop].
  pose proof (feed_conn (turn_pushed t) c) as Hfeed.
  destruct (feed (turn_pushed t) c) as [c1 log1]. cbn [fst] in Hfeed.
  rewrite Hc in Hfeed. rewrite and_then_conn.
  destruct (turn_arm t).
  - unfold conn_write. rewrite Hfeed. cbn [written].
    destruct (turn_write_ok t); cbn [fst conn].
    + exists [CloseFrame 1000 ""]. split; [done|]. by repeat constructor.
    + exists []. by rewrite app_nil_r.
  - unfold conn_write. rewrite Hfeed. cbn [written].
    destruct (turn_write_ok t).
    + rewrite and_then_conn.
      edestruct (IH (mkClient (apiURL c1) (token c1) (hostID c1)
                       (Some (mkConn (old ++ [PingFrame]))) (buffer c1)))
        as (new & Hnew & Hall); [reflexivity|].
      exists (PingFrame :: new). split.
      * rewrite Hnew. by rewrite <- app_assoc.
      * by constructor.
    + exists []. by rewrite app_nil_r.
  - destruct (Backpressure.PopBatch _ _ _ _) as [r b2 log2 n2| |] eqn:EP;
      [|exists []; by rewrite app_nil_r..].
    cbv zeta.
    destruct (Z.ltb_spec 0 (Z.of_nat (length match r with Some l => l | None => [] end)))
      as [Hpos|Hzero].
    + destruct r as [batch|]; [|simpl in Hpos; lia].
      assert (Hne : batch <> []) by (intros ->; simpl in Hpos; lia).
      assert (Hlen : (1 <= length batch <= 10)%nat).
      { split; [lia|].
        destruct (BackpressureFacts.PopBatch_batch_length _ _ batchSize _ _ _ _ _
                    ltac:(unfold batchSize; lia) EP) as [_ Hmax].
        unfold batchSize in Hmax. lia. }
      pose proof (sendSamples_spec (with_buffer c1 b2) batch (turn_write_ok t) old
                    Hfeed Hne) as Hsend.
      destruct (mapM marshalSample batch) as [encoded|] eqn:Henc.
      * rewrite Hsend. destruct (turn_write_ok t).
        -- rewrite and_then_conn.
           edestruct (IH (mkClient (apiURL (with_buffer c1 b2)) (token (with_buffer c1 b2))
                            (hostID (with_buffer c1 b2))
                            (Some (mkConn (old ++ [TextFrame (envelope encoded)])))
                            (buffer (with_buffer c1 b2))))
             as (new & Hnew & Hall); [reflexivity|].
           exists (TextFrame (envelope encoded) :: new). split.
           ++ rewrite Hnew. by rewrite <- app_assoc.
           ++ constructor; [|done]. by exists batch, encoded.
        -- exists []. by rewrite app_nil_r.
      * rewrite Hsend. exists []. by rewrite app_nil_r.
    + rewrite and_then_conn.
      destruct (IH (with_buffer c1 b2) old Hfeed) as (new & Hnew & Hall).
      by exists new.
Qed.

Lemma and_then_nil (r : Client Sample * list LogEntry * Exit) : and_then [] r = r.
Proof. by destruct r as [[? ?] ?]. Qed.

Lemma and_then_and_then log1 log2 (r : Client Sample * list LogEntry * Exit) :
  and_then log1 (and_then log2 r) = and_then (log1 ++ log2) r.
Proof. unfold and_then. cbn [fst snd]. by rewrite app_assoc. Qed.

(** One turn of the default arm, when nothing was pushed meanwhile. *)
Lemma writeLoop_default script t c old r b' log n :
  conn c = Some (mkConn old) ->
  turn_arm t = ArmDefault -> turn_pushed t = [] ->
  Backpressure.PopBatch (turn_done t) (turn_pick t) batchSize (buffer c)
  = Backpressure.Returned r b' log n ->
  match r with
  | None =>
      writeLoop marshalSample (t :: script) c
      = writeLoop marshalSample script (with_buffer c b')
  | Some batch =>
      (1 <= length batch <= 10)%nat
      /\ match mapM marshalSample batch with
         | Some encoded =>
             if turn_write_ok t
             then exists log',
                 writeLoop marshalSample (t :: script) c
                 = and_then log'
                     (writeLoop marshalSample script
                        (mkClient (apiURL c) (token c) (hostID c)
                           (Some (mkConn (old ++ [TextFrame (envelope encoded)]))) b'))
             else exists log',
                 writeLoop marshalSample (t :: script) c
                 = (with_buffer c b', log', ExitSendFailed)
         | None =>
             exists log',
               writeLoop marshalSample (t :: script) c
               = (with_buffer c b', log', ExitSendFailed)
         end
  end.
Proof.
  intros Hc Harm Hpush EP. destruct c as [url tok hid cn b]. cbn [conn buffer] in *.
  subst cn. pose proof (BackpressureFacts.PopBatch_no_log _ _ _ _ _ _ _ _ EP) as ->.
  cbn [writeLoop]. rewrite Hpush, Harm. unfold feed. cbn [Backpressure.push_all].
  cbn [mret Backpressure.Go_ret Backpressure.ret with_buffer buffer apiURL token hostID conn].
  rewrite and_then_nil, EP. cbv zeta.
  destruct r as [batch|].
  - destruct (BackpressureFacts.PopBatch_batch_length _ _ batchSize _ _ _ _ _
                ltac:(unfold batchSize; lia) EP) as [Hmin Hmax].
    unfold batchSize in Hmax.
    split; [lia|].
    assert (Hne : batch <> []) by (intros ->; simpl in Hmin; lia).
    destruct (Z.ltb_spec 0 (Z.of_nat (length batch))) as [_|?]; [|lia].
    unfold with_buffer. cbn [buffer apiURL token hostID conn].
    pose proof (sendSamples_spec (mkClient url tok hid (Some (mkConn old)) b')
                  batch (turn_write_ok t) old eq_refl Hne) as Hsend.
    destruct (mapM marshalSample batch) as [encoded|]; rewrite Hsend.
    + destruct (turn_write_ok t); by eexists.
    + by eexists.
  - cbn [length]. by rewrite and_then_nil.
Qed.

(** C7. Outbound envelope shape.  Along any run of the writer, every text
    frame written to the connection is one message
    [{ "type": "metrics", "samples": [...] }] whose array encodes between
    1 and 10 records.  In a turn of the default arm: when [PopBatch]
    returns [nil] nothing is sent; when it returns a batch, the batch has
    between 1 and 10 records and goes out whole, in pop order, as a single
    frame (or the loop ends, on a marshalling or write error, with nothing
    sent). *)
Theorem metrics_envelope script t c old :
  conn c = Some (mkConn old) ->
  (exists new,
      conn (writeLoop marshalSample (t :: script) c).1.1 = Some (mkConn (old ++ new))
      /\ Forall (writer_frame marshalSample) new)
  /\ (turn_arm t = ArmDefault -> turn_pushed t = [] ->
      forall r b' log n,
        Backpressure.PopBatch (turn_done t) (turn_pick t) batchSize (buffer c)
        = Backpressure.Returned r b' log n ->
        match r with
        | None =>
            writeLoop marshalSample (t :: script) c
            = writeLoop marshalSample script (with_buffer c b')
        | Some batch =>
            (1 <= length batch <= 10)%nat
            /\ match mapM marshalSample batch with
               | Some encoded =>
                   if turn_write_ok t
                   then exists log',
                       writeLoop marshalSample (t :: script) c
                       = and_then log'
                           (writeLoop marshalSample script
                              (mkClient (apiURL c) (token c) (hostID c)
                                 (Some (mkConn (old ++ [TextFrame (envelope encoded)])))
                                 b'))
                   else exists log',
                       writeLoop marshalSample (t :: script) c
                       = (with_buffer c b', log', ExitSendFailed)
               | None =>
                   exists log',
                     writeLoop marshalSample (t :: script) c
                     = (with_buffer c b', log', ExitSendFailed)
               end
        end).
Proof.
  intros Hc. split.
  - by apply writeLoop_frames.
  - intros Harm Hpush r b' log n EP. by eapply writeLoop_default.
Qed.

(** The handler leaves the client as it found it. *)
Lemma handleControlMessage_client c msg : (handleControlMessage c msg).1 = c.
Proof.
  unfold handleControlMessage.
  by destruct (String.eqb (ctrl_Type msg) "setRate"),
    (String.eqb (ctrl_Type msg) "pause"), (String.eqb (ctrl_Type msg) "resume").
Qed.

(** Frames alone never end the session: as long as the context is not
    cancelled and [ReadMessage] returns no error, the loop is still
    reading, with the client it started with. *)
Lemma readLoop_frames_only script c cn :
  conn c = Some cn ->
  Forall (fun turn => turn.1 = false /\ forall err, turn.2 <> ReadError err) script ->
  (readLoop unmarshal script c).2 = StillRunning
  /\ (readLoop unmarshal script c).1.1 = c.
Proof.
  intros Hc Hall. induction Hall as [|[cancelled ev] script [Hd He] _ IH]; [done|].
  cbn [fst snd] in Hd, He. subst cancelled. cbn [readLoop]. rewrite Hc.
  destruct ev as [err|message]; [by destruct (He err)|].
  destruct (unmarshal message) as [ctrl|err]; [|done].
  pose proof (handleControlMessage_client c ctrl) as Hh.
  destruct (handleControlMessage c ctrl) as [c' log]. cbn [fst] in Hh. by subst c'.
Qed.

(** C8. Inbound error discipline, for a live connection and a context that
    is not cancelled.
    - A frame that does not parse is logged and skipped: the loop goes on
      with the next turn, the client unchanged.
    - A parsed control message with an unknown discriminant is logged (as
      received, then as unknown) and ignored: the loop goes on likewise.
    - A read error makes the loop return at once, whatever would follow:
      its deferred [cancel] ends the session.
    - As long as no read error occurs and the context is not cancelled,
      the loop does not return, whatever the frames. *)
Theorem inbound_error_discipline script c cn :
  conn c = Some cn ->
  (forall message err,
      unmarshal message = inr err ->
      readLoop unmarshal ((false, ReadMessage message) :: script) c
      = and_then
          [Log WarnLevel [LStr "Failed to parse control message"; LStr "error"; LStr err]]
          (readLoop unmarshal script c))
  /\ (forall message ctrl,
        unmarshal message = inl ctrl ->
        ctrl_Type ctrl <> "setRate" -> ctrl_Type ctrl <> "pause" ->
        ctrl_Type ctrl <> "resume" ->
        readLoop unmarshal ((false, ReadMessage message) :: script) c
        = and_then
            [Log InfoLevel [LStr "📥 Received control message"; LStr "type";
                            LStr (ctrl_Type ctrl)];
             Log WarnLevel [LStr "Unknown control message type"; LStr "type";
                            LStr (ctrl_Type ctrl)]]
            (readLoop unmarshal script c))
  /\ (forall err,
        readLoop unmarshal ((false, ReadError err) :: script) c
        = (c, [Log WarnLevel [LStr "WebSocket read error"; LStr "error"; LStr err]],
           ExitReadError)
        /\ session_ended ExitReadError = true)
  /\ (Forall (fun turn => turn.1 = false /\ forall err, turn.2 <> ReadError err) script ->
      session_ended (readLoop unmarshal script c).2 = false).
Proof.
  intros Hc. split; [|split; [|split]].
  - intros message err Hm. cbn [readLoop]. by rewrite Hc, Hm.
  - intros message ctrl Hm H1 H2 H3. cbn [readLoop]. rewrite Hc, Hm.
    unfold handleControlMessage.
    apply String.eqb_neq in H1, H2, H3. by rewrite H1, H2, H3.
  - intros err. cbn [readLoop]. by rewrite Hc.
  - intros Hall. destruct (readLoop_frames_only script c cn Hc Hall) as [-> _]. done.
Qed.

(** C10. The control-message handler only logs.  For every control message,
    [setRate], [pause] and [resume] included, the client after the call is
    the client before it: same buffer content, same dropped counter, same
    connection handle, same token; and the collector of the agent, with its
    sampling interval, is untouched.  The only output is the log. *)
Theorem handleControlMessage_only_logs (a : Agent Sample) c msg :
  (exists log, handleControlMessage c msg = (c, log) /\ (2 <= length log)%nat)
  /\ (let c' := (handleControlMessage c msg).1 in
      Backpressure.chan_queue (Backpressure.buffer (buffer c'))
      = Backpressure.chan_queue (Backpressure.buffer (buffer c))
      /\ Backpressure.DroppedCount (buffer c') = Backpressure.DroppedCount (buffer c)
      /\ conn c' = conn c
      /\ token c' = token c)
  /\ (exists log,
        Agent_handleControlMessage a msg = (a, log)
        /\ collector_interval (agent_collector (Agent_handleControlMessage a msg).1)
           = collector_interval (agent_collector a)).
Proof.
  split; [|split].
  - unfold handleControlMessage.
    destruct (String.eqb (ctrl_Type msg) "setRate"),
      (String.eqb (ctrl_Type msg) "pause"), (String.eqb (ctrl_Type msg) "resume");
      eexists; (split; [reflexivity | simpl; lia]).
  - cbv zeta. by rewrite handleControlMessage_client.
  - unfold Agent_handleControlMessage.
    pose proof (handleControlMessage_client (agent_client a) msg) as Hh.
    destruct (handleControlMessage (agent_client a) msg) as [c' log].
    cbn [fst] in *. subst c'. exists log. by destruct a.
Qed.

End WithSample.

Lemma metrics_envelope_witness :
  let c := mkClient "wss://example/agent" "tok" "host" (Some (mkConn []))
             (Backpressure.mkBuffer (Backpressure.mkChan 100 [1; 2; 3]) 100 0) in
  let t := mkTurn [] ArmDefault false false true in
  conn c = Some (mkConn [])
  /\ (writeLoop toy_marshal [t] c).1.1
     = mkClient "wss://example/agent" "tok" "host"
         (Some (mkConn [TextFrame (envelope [JNumber 1; JNumber 2; JNumber 3])]))
         (Backpressure.mkBuffer (Backpressure.mkChan 100 []) 100 0)
  /\ exists new,
      conn (writeLoop toy_marshal [t] c).1.1 = Some (mkConn ([] ++ new))
      /\ Forall (writer_frame toy_marshal) new.
Proof.
  intros c t. split; [reflexivity|]. split; [reflexivity|].
  exact (proj1 (metrics_envelope toy_marshal [] t c [] eq_refl)).
Defined.

Lemma inbound_error_discipline_witness :
  let c := mkClient "wss://example/agent" "tok" "host" (Some (mkConn []))
             (Backpressure.mkBuffer (Backpressure.mkChan 100 [1; 2; 3]) 100 0) in
  conn c = Some (mkConn [])
  /\ toy_unmarshal "garbage" = inr "invalid character"
  /\ readLoop toy_unmarshal
       [(false, ReadMessage "garbage"); (false, ReadMessage "reboot-frame");
        (false, ReadError "EOF"); (false, ReadMessage "never read")] c
     = and_then
         [Log WarnLevel [LStr "Failed to parse control message"; LStr "error";
                         LStr "invalid character"]]
         (readLoop toy_unmarshal
            [(false, ReadMessage "reboot-frame"); (false, ReadError "EOF");
             (false, ReadMessage "never read")] c).
Proof.
  intros c. split; [reflexivity|]. split; [reflexivity|].
  refine (proj1 (inbound_error_discipline toy_unmarshal _ c (mkConn []) eq_refl)
            "garbage" "invalid character" eq_refl).
Defined.

End ClientFacts.

(** * More properties of the relay buffer *)

Module OverflowFacts.
Import Backpressure Overflow BackpressureFacts.

Section WithSample.

Context {Sample : Type}.

Implicit Types (b : BackpressureBuffer Sample) (sample x : Sample)
  (q l : list Sample).

(** X1. The newest record is never the one lost.  In a reachable state of
    a buffer of capacity at least one, [Push] leaves the pushed record at
    the tail of the queue, the length goes up by one unless the buffer was
    full, and the warning of a failed add is not logged. *)
Theorem Push_keeps_newest size b sample :
  reachable size b -> 1 <= size ->
  exists b' log n,
    Push sample b = Returned tt b' log n
    /\ last (chan_queue (buffer b')) = Some sample
    /\ Len b' = Z.min (Len b + 1) size
    /\ failed_to_add_warnings log = 0%nat.
Proof.
  intros Hb Hsize. destruct (reachable_inv _ _ Hb) as (Hcap & _ & Hlen & _).
  destruct (Z.lt_ge_cases (Len b) (chan_cap (buffer b))) as [Hfree|Hfull].
  - rewrite (Push_free _ _ Hfree). eexists _, _, _. split; [reflexivity|].
    unfold Len, chan_len, with_queue in *. cbn [buffer chan_queue].
    rewrite last_snoc, length_app. simpl. split; [done|]. split; [lia | done].
  - rewrite (Push_full _ _ Hfull). cbv zeta. eexists _, _, _. split; [reflexivity|].
    unfold Len, chan_len in *. cbn [buffer chan_queue].
    destruct (chan_queue (buffer b)) as [|x q']; simpl in Hfull, Hlen; [lia|].
    cbn [tail]. destruct (Z.ltb_spec (Z.of_nat (length q')) (chan_cap (buffer b))); [|lia].
    rewrite last_snoc, length_app. simpl. split; [done|]. split; [lia|].
    by destruct (_ mod 10 =? 0).
Qed.


(** X3. [PopBatch] only takes records out.  Whatever it returns, the
    records of the batch and the records left are as many as there were,
    the drop counter, the capacity and [bufferSize] are as before, and
    nothing is logged. *)
Theorem PopBatch_conserves done pick maxCount b r b' log n :
  PopBatch done pick maxCount b = Returned r b' log n ->
  Len b' + Z.of_nat (length (batch_of r)) = Len b
  /\ batch_of r ++ chan_queue (buffer b') = chan_queue (buffer b)
  /\ DroppedCount b' = DroppedCount b
  /\ chan_cap (buffer b') = chan_cap (buffer b)
  /\ bufferSize b' = bufferSize b
  /\ log = [].
Proof.
  intros E. pose proof (PopBatch_take_drop _ _ _ _ _ _ _ _ E) as Hq.
  pose proof (PopBatch_no_log _ _ _ _ _ _ _ _ E) as ->.
  fold (batch_of r) in Hq.
  assert (Hframe : DroppedCount b' = DroppedCount b
                   /\ chan_cap (buffer b') = chan_cap (buffer b)
                   /\ bufferSize b' = bufferSize b).
  { destruct (Z.lt_ge_cases maxCount 0) as [Hneg|Hpos].
    { by rewrite PopBatch_negative in E. }
    destruct (chan_queue (buffer b)) as [|x q'] eqn:Hb.
    - rewrite (PopBatch_empty _ _ _ _ Hpos Hb) in E.
      destruct done; [|done]. by injection E as _ <- _.
    - rewrite (PopBatch_nonempty _ _ _ _ _ _ Hpos Hb) in E.
      destruct (done && pick); by injection E as _ <- _. }
  unfold Len, chan_len. rewrite <- Hq, length_app.
  destruct Hframe as (? & ? & ?). repeat split; try done. lia.
Qed.

(** [k] batches of [m] records are the first [k * m] records. *)
Lemma pops_run k pick maxCount b delivered evictions :
  1 <= maxCount ->
  let m := Z.to_nat maxCount in
  run (pops k pick maxCount) (mkTrace b delivered evictions)
  = mkTrace (with_queue b (drop (k * m) (chan_queue (buffer b))))
      (delivered ++ take (k * m) (chan_queue (buffer b))) evictions.
Proof.
  intros Hmax m. revert b delivered.
  induction k as [|k IH]; intros b delivered.
  - simpl. by rewrite drop_0, with_queue_same, app_nil_r.
  - unfold pops in *. cbn [replicate run tr_buffer tr_delivered tr_evictions].
    destruct (chan_queue (buffer b)) as [|x q'] eqn:Hq.
    + rewrite (PopBatch_empty false pick maxCount b ltac:(lia) Hq). rewrite IH, Hq.
      by rewrite !drop_nil, !take_nil.
    + rewrite (PopBatch_nonempty false pick maxCount b x q' ltac:(lia) Hq).
      cbn [andb]. cbv zeta.
      replace (S (Z.to_nat (maxCount - 1))) with m by (unfold m; lia).
      rewrite IH. unfold with_queue. cbn [buffer chan_queue chan_cap bufferSize dropped].
      rewrite drop_drop, <- app_assoc, take_take_drop.
      by replace (m + k * m)%nat with (S k * m)%nat by lia.
Qed.

(** X4. Draining in batches.  With [1 <= maxCount] and a live context, [k]
    calls of [PopBatch] in a row return the first [k * maxCount] records
    of the queue, in queue order, and leave the rest; once the buffer is
    empty the further calls are parked and return nothing. *)
Theorem PopBatch_chunks k pick maxCount b :
  1 <= maxCount ->
  let m := Z.to_nat maxCount in
  let tr := run (pops k pick maxCount) (mkTrace b [] 0) in
  tr_delivered tr = take (k * m) (chan_queue (buffer b))
  /\ chan_queue (buffer (tr_buffer tr)) = drop (k * m) (chan_queue (buffer b))
  /\ ((length (chan_queue (buffer b)) <= k * m)%nat ->
      tr_delivered tr = chan_queue (buffer b) /\ Len (tr_buffer tr) = 0).
Proof.
  intros Hmax m tr. subst tr. rewrite (pops_run k pick maxCount b [] 0%nat Hmax).
  fold m. cbn [tr_delivered tr_buffer app]. unfold with_queue, Len, chan_len.
  cbn [buffer chan_queue]. split; [done|]. split; [done|].
  intros Hk. by rewrite take_ge, drop_ge by lia.
Qed.

(** How many multiples of 10 a counter passes when it goes up by one. *)
Lemma tenth_step d :
  0 <= d ->
  (d + 1) / 10 - d / 10 = if (d + 1) mod 10 =? 0 then 1 else 0.
Proof.
  intros Hd. destruct (Z.eqb_spec ((d + 1) mod 10) 0) as [H0|H0];
    Z.div_mod_to_equations; lia.
Qed.

Lemma backpressure_warnings_app log1 log2 :
  backpressure_warnings (log1 ++ log2)
  = (backpressure_warnings log1 + backpressure_warnings log2)%nat.
Proof. unfold backpressure_warnings. by rewrite List.filter_app, length_app. Qed.

Lemma failed_to_add_warnings_app log1 log2 :
  failed_to_add_warnings (log1 ++ log2)
  = (failed_to_add_warnings log1 + failed_to_add_warnings log2)%nat.
Proof. unfold failed_to_add_warnings. by rewrite List.filter_app, length_app. Qed.

(** Pushing [l] with no consumer, from any state of a buffer of capacity
    at least one, as long as the counter does not wrap. *)
Lemma push_all_warnings l b :
  1 <= chan_cap (buffer b) -> Len b <= chan_cap (buffer b) -> 0 <= dropped b ->
  let e := Z.max 0 (Len b + Z.of_nat (length l) - chan_cap (buffer b)) in
  dropped b + e < uint64_modulus ->
  exists b' log n,
    push_all l b = Returned tt b' log n
    /\ dropped b' = dropped b + e
    /\ Z.of_nat (backpressure_warnings log) = (dropped b + e) / 10 - dropped b / 10
    /\ failed_to_add_warnings log = 0%nat.
Proof.
  revert b. induction l as [|s l IH]; intros b Hcap Hlen Hd e He; subst e.
  - exists b, [], 0%nat. split; [done|]. simpl length in *.
    replace (Z.max 0 (Len b + Z.of_nat 0 - chan_cap (buffer b))) with 0 by lia.
    rewrite Z.add_0_r. split; [done|].
    split; [unfold backpressure_warnings; simpl; lia | done].
  - simpl length in *.
    destruct (Z.lt_ge_cases (Len b) (chan_cap (buffer b))) as [Hfree|Hfull].
    + rewrite (push_all_cons _ _ _ _ _ _ (Push_free s b Hfree)).
      destruct (IH (with_queue b (chan_queue (buffer b) ++ [s])))
        as (b' & log & n & E & Hd' & Hw & Hf);
        unfold Len, chan_len, with_queue in *; cbn [buffer chan_queue chan_cap dropped] in *;
        rewrite ?length_app in *; simpl length in *; try lia.
      rewrite E. eexists _, _, _. split; [reflexivity|].
      split; [rewrite Hd'; lia|]. split; [|done].
      simpl. rewrite Hw. f_equal. f_equal. lia.
    + assert (Hq : exists x q', chan_queue (buffer b) = x :: q'
                 /\ Z.of_nat (length q') + 1 = chan_cap (buffer b)).
      { unfold Len, chan_len in *.
        destruct (chan_queue (buffer b)) as [|x q']; simpl in *; [lia|].
        exists x, q'. split; [done | lia]. }
      destruct Hq as (x & q' & Hq & Hq').
      pose proof (Push_full s b Hfull) as EP. cbv zeta in EP. rewrite Hq in EP.
      cbn [tail] in EP.
      destruct (Z.ltb_spec (Z.of_nat (length q')) (chan_cap (buffer b))); [|lia].
      rewrite (push_all_cons _ _ _ _ _ _ EP).
      unfold Len, chan_len in *. rewrite Hq in *. simpl length in *.
      assert (Hinc : uint64_incr (dropped b) = dropped b + 1)
        by (unfold uint64_incr; rewrite Z.mod_small; lia).
      rewrite Hinc in *.
      match type of EP with _ = Returned _ ?b1 _ _ =>
        destruct (IH b1) as (b' & log & n & E & Hd' & Hw & Hf) end;
        cbn [buffer chan_queue chan_cap dropped] in *;
        rewrite ?length_app in *; simpl length in *; try lia.
      rewrite E. eexists _, _, _. split; [reflexivity|].
      split; [rewrite Hd'; lia|].
      rewrite backpressure_warnings_app, failed_to_add_warnings_app, Hf.
      rewrite Nat2Z.inj_add, Hw. split.
      * pose proof (tenth_step (dropped b) Hd) as Ht.
        replace (dropped b + 1 + Z.max 0 (Z.of_nat (length q' + 1) + Z.of_nat (length l)
                   - chan_cap (buffer b)))
          with (dropped b + Z.max 0 (Z.of_nat (S (length q')) + Z.of_nat (S (length l))
                   - chan_cap (buffer b))) by lia.
        destruct ((dropped b + 1) mod 10 =? 0); simpl app;
          unfold backpressure_warnings; simpl; lia.
      * by destruct ((dropped b + 1) mod 10 =? 0).
Qed.

(** [Push] logs nothing but its two warnings. *)
Lemma Push_log_warnings_only l b b1 log n :
  push_all l b = Returned tt b1 log n ->
  Forall (fun e => is_backpressure_warning e = true \/ is_failed_to_add e = true) log.
Proof.
  revert b b1 log n. induction l as [|s l IH]; intros b b1 log n E.
  - injection E as _ <- _. constructor.
  - destruct (Push_returns s b) as (b' & log1 & n1 & EP & _).
    rewrite (push_all_cons _ _ _ _ _ _ EP) in E.
    destruct (push_all l b') as [[] b2 log2 n2| |] eqn:E2; [|done..].
    injection E as _ <- _. apply Forall_app. split; [|by eapply IH].
    destruct (Z.lt_ge_cases (Len b) (chan_cap (buffer b))) as [Hfree|Hfull].
    + rewrite (Push_free _ _ Hfree) in EP. injection EP as _ <- _. constructor.
    + rewrite (Push_full _ _ Hfull) in EP. cbv zeta in EP. injection EP as _ <- _.
      apply Forall_app. split.
      * destruct (_ <? _); [constructor | constructor; [by right | constructor]].
      * destruct (_ =? 0); [constructor; [by left | constructor] | constructor].
Qed.

(** X5. One warning per ten drops, over a run.  Pushing [n] records into a
    fresh buffer of capacity [C >= 1], with no consumer, drops
    [max 0 (n - C)] of them and logs exactly a tenth of that number
    (rounded down) of backpressure warnings, and no other warning; this as
    long as the 64-bit counter does not wrap. *)
Theorem push_all_warning_count (C : Z) l :
  1 <= C ->
  let drops := Z.max 0 (Z.of_nat (length l) - C) in
  drops < uint64_modulus ->
  exists (b0 b1 : BackpressureBuffer Sample) log n,
    NewBackpressureBuffer C = Some b0
    /\ push_all l b0 = Returned tt b1 log n
    /\ DroppedCount b1 = drops
    /\ Z.of_nat (backpressure_warnings log) = drops / 10
    /\ length log = backpressure_warnings log.
Proof.
  intros HC drops Hdrops. subst drops.
  rewrite NewBackpressureBuffer_spec by lia.
  destruct (push_all_warnings l (mkBuffer (mkChan C []) C 0))
    as (b1 & log & n & E & Hd & Hw & Hf);
    unfold Len, chan_len; cbn [buffer chan_queue chan_cap dropped length]; try lia.
  exists (mkBuffer (mkChan C []) C 0), b1, log, n.
  split; [done|]. split; [done|]. unfold DroppedCount.
  unfold Len, chan_len in *. cbn [buffer chan_queue chan_cap dropped length] in *.
  split; [rewrite Hd; lia|]. split.
  - rewrite Hw. change (0 / 10) with 0. rewrite Z.sub_0_r. f_equal; lia.
  - pose proof (Push_log_warnings_only l (mkBuffer (mkChan C []) C 0) b1 log n E) as Hall.
    unfold backpressure_warnings, failed_to_add_warnings in *.
    clear -Hall Hf. induction Hall as [|e log [He|He] _ IH]; [done|..];
      simpl in *; rewrite He in *; simpl in *.
    + f_equal. apply IH. by destruct (is_failed_to_add e).
    + lia.
Qed.

End WithSample.

(** Instances at [Sample := Z]. *)

Lemma Push_keeps_newest_witness :
  let b := mkBuffer (mkChan 2 []) 2 0 in
  exists b' log n,
    Push 7 b = Returned tt b' log n
    /\ last (chan_queue (buffer b')) = Some 7
    /\ Len b' = Z.min (Len b + 1) 2
    /\ failed_to_add_warnings log = 0%nat.
Proof.
  intros b. apply (Push_keeps_newest 2 b 7).
  - apply reach_new. reflexivity.
  - lia.
Defined.

Lemma PopBatch_conserves_witness :
  let b := mkBuffer (mkChan 5 [1; 2; 3]) 5 0 in
  let b' := mkBuffer (mkChan 5 [3]) 5 0 in
  Len b' + Z.of_nat (length (batch_of (Some [1; 2]))) = Len b
  /\ batch_of (Some [1; 2]) ++ chan_queue (buffer b') = chan_queue (buffer b)
  /\ DroppedCount b' = DroppedCount b
  /\ chan_cap (buffer b') = chan_cap (buffer b)
  /\ bufferSize b' = bufferSize b
  /\ @nil LogEntry = [].
Proof.
  intros b b'.
  apply (PopBatch_conserves false false 2 b (Some [1; 2]) b' [] 3%nat).
  reflexivity.
Defined.

Lemma PopBatch_chunks_witness :
  let b := mkBuffer (mkChan 5 [1; 2; 3; 4; 5]) 5 0 in
  let m := Z.to_nat 2 in
  let tr := run (pops 2 false 2) (mkTrace b [] 0) in
  tr_delivered tr = take (2 * m) (chan_queue (buffer b))
  /\ chan_queue (buffer (tr_buffer tr)) = drop (2 * m) (chan_queue (buffer b))
  /\ ((length (chan_queue (buffer b)) <= 2 * m)%nat ->
      tr_delivered tr = chan_queue (buffer b) /\ Len (tr_buffer tr) = 0).
Proof.
  intros b. apply (PopBatch_chunks 2 false 2 b). lia.
Defined.

Lemma push_all_warning_count_witness :
  let l := [1; 2; 3; 4; 5; 6; 7; 8; 9; 10; 11; 12] in
  let drops := Z.max 0 (Z.of_nat (length l) - 1) in
  exists (b0 b1 : BackpressureBuffer Z) log n,
    NewBackpressureBuffer 1 = Some b0
    /\ push_all l b0 = Returned tt b1 log n
    /\ DroppedCount b1 = drops
    /\ Z.of_nat (backpressure_warnings log) = drops / 10
    /\ length log = backpressure_warnings log.
Proof.
  intros l. apply (push_all_warning_count 1 l).
  - lia.
  - reflexivity.
Defined.

End OverflowFacts.

(** * More properties of the client *)

Module WireFacts.
Import Client Wire ClientFacts.

(** ** The supervisor *)

Lemma fold_returned attempts st :
  returned st = true -> fold_left Run_step attempts st = st.
Proof.
  intros Hr. induction attempts as [|a attempts IH]; [done|].
  simpl. unfold Run_step at 2. by rewrite Hr.
Qed.

Lemma Run_step_returned st a :
  returned (Run_step st a)
  = returned st || match a with CtxCancelled => true | _ => false end.
Proof. unfold Run_step. by destruct (returned st) eqn:E, a; cbn [returned]; rewrite ?E. Qed.

(** X6. [Run] returns on cancellation and on nothing else, and does nothing
    after it has returned: however often [connect] fails and however the
    sessions end, the supervisor keeps going; once the context is seen
    cancelled at the top of the loop, no sleep, connect or session
    follows. *)
Theorem Run_returns_only_on_cancel attempts :
  (returned (Run attempts) = true <-> CtxCancelled ∈ attempts)
  /\ (forall rest, Run (attempts ++ CtxCancelled :: rest) = Run (attempts ++ [CtxCancelled]))
  /\ (CtxCancelled ∉ attempts ->
      Run (attempts ++ [CtxCancelled])
      = mkRun (backoff (Run attempts)) true
          (actions (Run attempts)
           ++ [Logged (Log InfoLevel [LStr "🌐 WebSocket client stopped"])])).
Proof.
  assert (Hiff : forall l, returned (Run l) = true <-> CtxCancelled ∈ l).
  { induction l as [|a l IH] using rev_ind.
    - split; [done | by intros ?%elem_of_nil].
    - rewrite Run_snoc, Run_step_returned, orb_true_iff, IH, elem_of_app,
        list_elem_of_singleton.
      split; (intros [?|?]; [by left | right]); by destruct a. }
  split; [apply Hiff|]. split.
  - intros rest. change (CtxCancelled :: rest) with ([CtxCancelled] ++ rest).
    rewrite app_assoc. unfold Run at 1. rewrite fold_left_app.
    fold (Run (attempts ++ [CtxCancelled])). apply fold_returned.
    apply Hiff. rewrite elem_of_app, list_elem_of_singleton. by right.
  - intros Hno. rewrite Run_snoc. unfold Run_step.
    destruct (returned (Run attempts)) eqn:Hr; [|done].
    by apply Hiff in Hr.
Qed.

Lemma sleeps_snoc attempts a :
  sleeps (actions (Run (attempts ++ [a])))
  = sleeps (actions (Run attempts))
    ++ match a with
       | ConnectFails _ r =>
           if returned (Run attempts) then []
           else [addJitter (backoff (Run attempts)) jitter r]
       | _ => []
       end.
Proof.
  rewrite Run_snoc. unfold Run_step.
  destruct (returned (Run attempts)); [by destruct a; rewrite app_nil_r|].
  destruct a; cbn [actions]; unfold sleeps; rewrite flat_map_app; simpl;
    by rewrite ?app_nil_r.
Qed.

(** X7. Every retry delay lies between 0.8 seconds and 144 seconds.  For
    draws of [rand.Float64] in [[0, 1)], whatever the sequence of failed
    and successful connects, each delay slept is within 20% of a stored
    backoff between the floor and the ceiling. *)
Theorem Run_sleeps_in_range attempts :
  Forall valid_draw attempts ->
  Forall (fun d => 800 * Millisecond <= d <= 144 * Second)
    (sleeps (actions (Run attempts))).
Proof.
  induction attempts as [|a attempts IH] using rev_ind; intros Hv.
  { constructor. }
  apply Forall_app in Hv as [Hv Ha]. rewrite Forall_singleton in Ha.
  rewrite sleeps_snoc. apply Forall_app. split; [by apply IH|].
  destruct a as [|err r|]; [constructor| |constructor].
  destruct (returned (Run attempts)); [constructor|].
  apply Forall_singleton. destruct Ha as [H0 H1].
  destruct (Run_schedule attempts) as [k ->].
  destruct (schedule_bounds k) as [[Hlo Hhi] _].
  destruct (schedule_seconds k) as [c Hc]. rewrite Hc in *.
  pose proof (addJitter_bounds c r
                ltac:(unfold initialBackoff, Second in *; lia) H0 H1) as Hb.
  unfold initialBackoff, maxBackoff, Minute, Second, Millisecond in *. lia.
Qed.

(** X8. The ceiling is reached at the seventh failure in a row and not
    before: after [k] consecutive failures from the start the stored
    backoff is the ceiling of two minutes exactly when [7 <= k]. *)
Theorem ceiling_after_seven fails :
  Forall is_failure fails ->
  (backoff (Run fails) = maxBackoff <-> (7 <= length fails)%nat).
Proof.
  intros Hf.
  destruct (fold_failures fails
              (mkRun initialBackoff false
                 [Logged (Log InfoLevel [LStr "🌐 WebSocket client starting"])])
              0%nat Hf eq_refl eq_refl) as [Hb _].
  fold (Run fails) in Hb. rewrite Hb. cbn [Nat.add]. split.
  - intros Hmax. destruct (le_lt_dec 7 (length fails)) as [?|Hlt]; [done|].
    exfalso. revert Hmax. generalize (length fails) Hlt. intros k Hk.
    do 7 (destruct k as [|k]; [by vm_compute|]). lia.
  - apply schedule_capped.
Qed.

(** X9. No rounding in the stored backoff.  Along every run, the IEEE
    binary64 computation [time.Duration(float64(backoff) * backoffFactor)],
    followed by the cap, gives exactly the value the exact arithmetic
    gives: the stored backoff never drifts. *)
Theorem stored_backoff_exact_in_binary64 attempts :
  Binary64.b64_grow_backoff (backoff (Run attempts))
  = Some (Z.min (2 * backoff (Run attempts)) maxBackoff).
Proof.
  destruct (Run_schedule attempts) as [k ->].
  by rewrite binary64_grow_backoff_exact, grow_backoff_spec.
Qed.

(** X10. Both ends of the jitter range are reached in binary64.  Along
    every run, with the stored backoff [b], the draw 0 gives the delay
    [0.8 * b] and the largest draw below 1 gives [1.2 * b], exactly: the
    range of the delay is closed at both ends. *)
Theorem jitter_range_closed_in_binary64 attempts :
  let b := backoff (Run attempts) in
  Binary64.b64_addJitter b Binary64.b64_jitter (Binary64.of_Z 0) = Some (8 * b / 10)
  /\ Binary64.b64_addJitter b Binary64.b64_jitter Binary64.below_one = Some (12 * b / 10)
  /\ 10 * (8 * b / 10) = 8 * b /\ 10 * (12 * b / 10) = 12 * b.
Proof.
  intros b. subst b. destruct (Run_schedule attempts) as [k ->].
  destruct (binary64_addJitter_extremes k) as [H0 H1].
  split; [done|]. split; [done|].
  destruct (schedule_seconds k) as [c ->]. unfold Second.
  split; Z.div_mod_to_equations; lia.
Qed.

(** ** The reader and the writer *)

Section WithSample.

Context {Sample : Type}.
Variable marshalSample : Sample -> option JSON.
Variable unmarshal : string -> ControlMessage + string.

Implicit Types (c : Client Sample) (t : Turn Sample) (script : list (Turn Sample)).

Ltac mem := rewrite ?elem_of_cons; auto 10.

(** X11. The reader changes nothing.  Whatever arrives and however the
    loop ends, the client after [readLoop] is the client before it: the
    reader never touches the buffer, the token or the connection handle.
    It ends only on cancellation, on a read error, or by the panic of a
    nil connection. *)
Theorem readLoop_changes_nothing reads c :
  let '(c', log, exit) := readLoop unmarshal reads c in
  c' = c
  /\ exit ∈ [StillRunning; ExitCancelled; ExitReadError; ExitPanicked]
  /\ (exit = ExitPanicked -> conn c = None)
  /\ (exit = ExitCancelled -> exists turn, turn ∈ reads /\ turn.1 = true)
  /\ (exit = ExitReadError -> exists err, (false, ReadError err) ∈ reads).
Proof.
  induction reads as [|[cancelled ev] reads IH].
  { simpl. split; [done|]. split; [mem | done]. }
  cbn [readLoop]. destruct cancelled.
  { split; [done|]. split; [mem|]. split; [done|].
    split; [|done]. intros _. exists (true, ev). split; [mem | done]. }
  destruct (conn c) eqn:Hc; [|split; [done|]; split; [mem | done]].
  destruct ev as [err|message].
  { split; [done|]. split; [mem|]. split; [done|]. split; [done|].
    intros _. exists err. mem. }
  assert (Hstep : forall log0,
    let '(c', log, exit) := and_then log0 (readLoop unmarshal reads c) in
    c' = c
    /\ exit ∈ [StillRunning; ExitCancelled; ExitReadError; ExitPanicked]
    /\ (exit = ExitPanicked -> Some c0 = None)
    /\ (exit = ExitCancelled ->
        exists turn, turn ∈ (false, ReadMessage message) :: reads /\ turn.1 = true)
    /\ (exit = ExitReadError ->
        exists err, (false, ReadError err) ∈ (false, ReadMessage message) :: reads)).
  { intros log0. destruct (readLoop unmarshal reads c) as [[c' log] exit].
    unfold and_then. cbn [fst snd].
    destruct IH as (-> & Hin & Hp & Hcan & Herr).
    split; [done|]. split; [done|]. split; [exact Hp|]. split.
    - intros He. destruct (Hcan He) as (turn & ? & ?). exists turn. mem.
    - intros He. destruct (Herr He) as (err & ?). exists err. mem. }
  destruct (unmarshal message) as [ctrl|err]; [|apply Hstep].
  pose proof (handleControlMessage_client c ctrl) as Hh.
  destruct (handleControlMessage c ctrl) as [c1 log1]. cbn [fst] in Hh. subst c1.
  apply Hstep.
Qed.

Lemma push_all_sublist (l : list Sample) b b' log n P :
  Backpressure.push_all l b = Backpressure.Returned tt b' log n ->
  Backpressure.chan_queue (Backpressure.buffer b) `sublist_of` P ->
  Backpressure.chan_queue (Backpressure.buffer b') `sublist_of` P ++ l.
Proof.
  revert b b' log n P. induction l as [|s l IH]; intros b b' log n P E HP.
  - injection E as <- _ _. by rewrite app_nil_r.
  - destruct (BackpressureFacts.Push_returns s b) as (b1 & log1 & n1 & EP & _).
    rewrite (BackpressureFacts.push_all_cons _ _ _ _ _ _ EP) in E.
    destruct (Backpressure.push_all l b1) as [[] b2 log2 n2| |] eqn:E2; [|done..].
    injection E as <- _ _.
    change (P ++ s :: l) with (P ++ [s] ++ l). rewrite app_assoc.
    eapply IH; [exact E2|].
    by apply (BackpressureFacts.Push_sublist s b b1 log1 n1 [] P EP).
Qed.

(** What the feeder does to the client: the connection is untouched, and
    the queue is a subsequence of what it was followed by the records
    pushed. *)
Lemma feed_spec l c :
  conn (feed l c).1 = conn c
  /\ Backpressure.chan_queue (Backpressure.buffer (buffer (feed l c).1))
       `sublist_of` Backpressure.chan_queue (Backpressure.buffer (buffer c)) ++ l.
Proof.
  unfold feed.
  destruct (Backpressure.push_all l (buffer c)) as [[] b' log n| |] eqn:E;
    cbn [fst conn buffer with_buffer]; (split; [done|]).
  - by eapply push_all_sublist.
  - by apply sublist_inserts_r.
  - by apply sublist_inserts_r.
Qed.

(** One turn of the writer, on a live connection.  [fs] are the frames the
    turn writes, [sent] the records they carry. *)
Lemma writeLoop_turn t script c old :
  conn c = Some (mkConn old) ->
  exists c2 fs sent log,
    conn c2 = Some (mkConn (old ++ fs))
    /\ mapM marshalSample sent = Some (flat_map frame_samples fs)
    /\ sent ++ Backpressure.chan_queue (Backpressure.buffer (buffer c2))
         `sublist_of` Backpressure.chan_queue (Backpressure.buffer (buffer c))
                      ++ turn_pushed t
    /\ ((writeLoop marshalSample (t :: script) c
         = and_then log (writeLoop marshalSample script c2)
         /\ Forall (fun f => is_close f = false) fs
         /\ turn_arm t <> ArmDone)
        \/ (exists e,
              writeLoop marshalSample (t :: script) c = (c2, log, e)
              /\ match e with
                 | ExitCancelled =>
                     turn_arm t = ArmDone
                     /\ fs = if turn_write_ok t then [CloseFrame 1000 ""] else []
                 | ExitPingFailed =>
                     turn_arm t = ArmTicker /\ turn_write_ok t = false /\ fs = []
                 | ExitSendFailed =>
                     turn_arm t = ArmDefault /\ fs = []
                     /\ (turn_write_ok t = false
                         \/ exists s, marshalSample s = None)
                 | Parked => turn_arm t = ArmDefault /\ fs = []
                 | _ => False
                 end)).
Proof.
  intros Hc. cbn [writeLoop].
  destruct (feed_spec (turn_pushed t) c) as [Hfc Hfq].
  destruct (feed (turn_pushed t) c) as [c1 log1]. cbn [fst] in Hfc, Hfq.
  rewrite Hc in Hfc.
  assert (Hdrop : forall r b2,
    match r with Some l => l | None => [] end
      ++ Backpressure.chan_queue (Backpressure.buffer b2)
    = Backpressure.chan_queue (Backpressure.buffer (buffer c1)) ->
    [] ++ Backpressure.chan_queue (Backpressure.buffer (buffer (with_buffer c1 b2)))
      `sublist_of` Backpressure.chan_queue (Backpressure.buffer (buffer c))
                   ++ turn_pushed t).
  { intros r b2 Hq. cbn [with_buffer buffer app]. etrans; [|exact Hfq].
    rewrite <- Hq. by apply sublist_inserts_l. }
  destruct (turn_arm t) eqn:Harm.
  - (* the context is cancelled: one close frame, best effort *)
    unfold conn_write. rewrite Hfc. cbn [written].
    unfold and_then. cbn [fst snd]. destruct (turn_write_ok t).
    + eexists _, [CloseFrame 1000 ""], [], _.
      (split; [|split; [|split]]); revgoals.
      * right. exists ExitCancelled. split; [reflexivity | done].
      * exact Hfq.
      * reflexivity.
      * reflexivity.
    + eexists c1, [], [], _. split; [by rewrite app_nil_r|].
      split; [reflexivity|]. split; [exact Hfq|].
      right. exists ExitCancelled. split; [reflexivity | done].
  - (* the ticker: a ping *)
    unfold conn_write. rewrite Hfc. cbn [written].
    destruct (turn_write_ok t) eqn:Hok.
    + eexists _, [PingFrame], [], _.
      (split; [|split; [|split]]); revgoals.
      * left. rewrite and_then_and_then. split; [reflexivity|].
        split; [by repeat constructor | done].
      * exact Hfq.
      * reflexivity.
      * reflexivity.
    + eexists c1, [], [], _. split; [by rewrite app_nil_r|].
      split; [reflexivity|]. split; [exact Hfq|].
      right. exists ExitPingFailed. unfold and_then. cbn [fst snd].
      split; [reflexivity | done].
  - (* the default arm: a batch *)
    destruct (Backpressure.PopBatch _ _ _ _) as [r b2 log2 n2| |] eqn:EP.
    + pose proof (BackpressureFacts.PopBatch_take_drop _ _ _ _ _ _ _ _ EP) as Hq.
      cbv zeta.
      destruct (Z.ltb_spec 0 (Z.of_nat (length match r with Some l => l | None => [] end)))
        as [Hpos|Hzero].
      * destruct r as [batch|]; [|simpl in Hpos; lia].
        assert (Hne : batch <> []) by (intros ->; simpl in Hpos; lia).
        pose proof (sendSamples_spec marshalSample (with_buffer c1 b2) batch
                      (turn_write_ok t) old Hfc Hne) as Hsend.
        destruct (mapM marshalSample batch) as [encoded|] eqn:Henc.
        -- rewrite Hsend. destruct (turn_write_ok t) eqn:Hok.
           ++ eexists _, [TextFrame (envelope encoded)], batch, _.
              (split; [|split; [|split]]); revgoals.
              ** left. rewrite and_then_and_then. split; [reflexivity|].
                 split; [by repeat constructor | done].
              ** cbn [buffer with_buffer]. rewrite Hq. exact Hfq.
              ** rewrite Henc. simpl. by rewrite app_nil_r.
              ** reflexivity.
           ++ eexists (with_buffer c1 b2), [], [], _. split; [by rewrite app_nil_r|].
              split; [reflexivity|]. split; [by eapply (Hdrop (Some batch))|].
              right. exists ExitSendFailed. unfold and_then. cbn [fst snd].
              split; [reflexivity|]. by auto.
        -- rewrite Hsend. eexists (with_buffer c1 b2), [], [], _.
           split; [by rewrite app_nil_r|].
           split; [reflexivity|]. split; [by eapply (Hdrop (Some batch))|].
           right. exists ExitSendFailed. unfold and_then. cbn [fst snd].
           split; [reflexivity|].
           split; [done|]. split; [done|]. right.
           apply mapM_None_1, Exists_exists in Henc as (s & _ & Hs). by exists s.
      * eexists (with_buffer c1 b2), [], [], _. split; [by rewrite app_nil_r|].
        split; [reflexivity|]. split; [by eapply Hdrop|].
        left. rewrite and_then_and_then. split; [reflexivity|]. split; [constructor | done].
    + eexists c1, [], [], _. split; [by rewrite app_nil_r|].
      split; [reflexivity|]. split; [exact Hfq|].
      right. exists Parked. split; [|done]. unfold and_then. cbn [fst snd].
      by rewrite app_nil_r.
    + exfalso. destruct (Backpressure.chan_queue (Backpressure.buffer (buffer c1)))
        as [|x q'] eqn:Hq1.
      * rewrite (BackpressureFacts.PopBatch_empty (turn_done t) (turn_pick t) batchSize
                   (buffer c1) ltac:(unfold batchSize; lia) Hq1) in EP.
        by destruct (turn_done t).
      * rewrite (BackpressureFacts.PopBatch_nonempty (turn_done t) (turn_pick t) batchSize
                   (buffer c1) x q' ltac:(unfold batchSize; lia) Hq1) in EP.
        by destruct (turn_done t && turn_pick t).
Qed.

Lemma mapM_app_Some (l1 l2 : list Sample) k1 k2 :
  mapM marshalSample l1 = Some k1 -> mapM marshalSample l2 = Some k2 ->
  mapM marshalSample (l1 ++ l2) = Some (k1 ++ k2).
Proof. rewrite !mapM_Some. apply Forall2_app. Qed.

(** A whole run of the writer, on a live connection. *)
Lemma writeLoop_run script c old :
  conn c = Some (mkConn old) ->
  let r := writeLoop marshalSample script c in
  exists new sent,
    conn r.1.1 = Some (mkConn (old ++ new))
    /\ mapM marshalSample sent = Some (flat_map frame_samples new)
    /\ sent ++ Backpressure.chan_queue (Backpressure.buffer (buffer r.1.1))
         `sublist_of` Backpressure.chan_queue (Backpressure.buffer (buffer c))
                      ++ script_pushed script
    /\ (Forall (fun f => is_close f = false) new
        \/ exists pre, new = pre ++ [CloseFrame 1000 ""]
                       /\ Forall (fun f => is_close f = false) pre
                       /\ r.2 = ExitCancelled)
    /\ r.2 ∈ [StillRunning; Parked; ExitCancelled; ExitPingFailed; ExitSendFailed]
    /\ (Forall (fun t => turn_arm t <> ArmDone /\ turn_write_ok t = true) script ->
        (forall s, is_Some (marshalSample s)) ->
        session_ended r.2 = false).
Proof.
  revert c old. induction script as [|t script IH]; intros c old Hc r; subst r.
  { exists [], []. cbn [writeLoop fst snd]. split; [by rewrite app_nil_r|].
    split; [done|]. split; [by rewrite app_nil_r|]. split; [by left|].
    split; [mem | done]. }
  destruct (writeLoop_turn t script c old Hc)
    as (c2 & fs & sent1 & log & Hc2 & Hm1 & Hs1 & [(E & Hnc & Harm)|(e & E & He)]).
  - rewrite E. unfold and_then. cbn [fst snd].
    destruct (IH c2 (old ++ fs) Hc2)
      as (new2 & sent2 & Hconn & Hm2 & Hs2 & Hclose & Hexit & Hlive).
    exists (fs ++ new2), (sent1 ++ sent2).
    split; [by rewrite Hconn, app_assoc|].
    split; [rewrite flat_map_app; by apply mapM_app_Some|].
    split; [|split; [|split]].
    + unfold script_pushed in *. cbn [flat_map]. rewrite <- app_assoc.
      etrans; [apply sublist_app; [reflexivity | exact Hs2]|].
      rewrite !app_assoc. by apply sublist_app.
    + destruct Hclose as [Hno|(pre & -> & Hpre & Hcan)].
      * left. by apply Forall_app.
      * right. exists (fs ++ pre). rewrite app_assoc. split; [done|].
        split; [by apply Forall_app | done].
    + done.
    + intros Ht Hmarshal. apply Forall_cons in Ht as [_ Ht]. by apply Hlive.
  - rewrite E. cbn [fst snd]. exists fs, sent1.
    split; [done|]. split; [done|]. split; [|split; [|split]].
    + unfold script_pushed. cbn [flat_map]. rewrite app_assoc.
      by apply sublist_inserts_r.
    + destruct e; try done.
      * left. by destruct He as (_ & ->).
      * destruct He as (_ & ->). destruct (turn_write_ok t).
        -- right. exists []. by repeat split.
        -- by left.
      * left. by destruct He as (_ & _ & ->).
      * left. by destruct He as (_ & -> & _).
    + destruct e; try done; mem.
    + intros Ht Hmarshal. apply Forall_cons in Ht as [[Harm Hok] _].
      destruct e; try done.
      * by destruct He as (? & _).
      * destruct He as (_ & Hok' & _). congruence.
      * destruct He as (_ & _ & [Hok'|(s & Hs)]); [congruence|].
        destruct (Hmarshal s) as [? ?]. congruence.
Qed.

(** X12. A close frame is the last thing the writer writes.  Along any run
    of [writeLoop] on a live connection, the frames written contain at
    most one close frame; if there is one it is the normal closure (code
    1000, no text), it is the last frame, and the loop has returned on
    cancellation. *)
Theorem close_frame_is_last script c old :
  conn c = Some (mkConn old) ->
  let r := writeLoop marshalSample script c in
  exists new,
    conn r.1.1 = Some (mkConn (old ++ new))
    /\ (Forall (fun f => is_close f = false) new
        \/ exists pre, new = pre ++ [CloseFrame 1000 ""]
                       /\ Forall (fun f => is_close f = false) pre
                       /\ r.2 = ExitCancelled).
Proof.
  intros Hc r.
  destruct (writeLoop_run script c old Hc) as (new & sent & H1 & _ & _ & H2 & _).
  by exists new.
Qed.

(** X13. What goes out on the wire is in push order.  Along any run of
    [writeLoop] on a live connection, with the feeder pushing meanwhile,
    the samples carried by the frames written are the encodings of
    records [sent] such that [sent], followed by what the buffer still
    holds, is a subsequence of what the buffer held followed by what was
    pushed: nothing is sent twice, nothing out of order. *)
Theorem wire_order script c old :
  conn c = Some (mkConn old) ->
  let r := writeLoop marshalSample script c in
  exists new sent,
    conn r.1.1 = Some (mkConn (old ++ new))
    /\ mapM marshalSample sent = Some (flat_map frame_samples new)
    /\ sent ++ Backpressure.chan_queue (Backpressure.buffer (buffer r.1.1))
         `sublist_of` Backpressure.chan_queue (Backpressure.buffer (buffer c))
                      ++ script_pushed script.
Proof.
  intros Hc r.
  destruct (writeLoop_run script c old Hc) as (new & sent & H1 & H2 & H3 & _).
  by exists new, sent.
Qed.

(** X14. The writer ends the session only on cancellation or on an error.
    On a live connection [writeLoop] never panics; and if no turn sees the
    context cancelled, every write succeeds and every sample can be
    encoded, the loop has not returned: it is still running or parked in
    [PopBatch]. *)
Theorem writer_ends_only_on_error script c old :
  conn c = Some (mkConn old) ->
  let exit := (writeLoop marshalSample script c).2 in
  exit ∈ [StillRunning; Parked; ExitCancelled; ExitPingFailed; ExitSendFailed]
  /\ (Forall (fun t => turn_arm t <> ArmDone /\ turn_write_ok t = true) script ->
      (forall s, is_Some (marshalSample s)) ->
      session_ended exit = false).
Proof.
  intros Hc exit.
  destruct (writeLoop_run script c old Hc) as (new & sent & _ & _ & _ & _ & H1 & H2).
  by split.
Qed.

End WithSample.

(** Instances at [Sample := Z]. *)

Lemma Run_sleeps_in_range_witness :
  Forall (fun d => 800 * Millisecond <= d <= 144 * Second)
    (sleeps (actions (Run [ConnectFails "refused" (1 # 2); ConnectSucceeds;
                           ConnectFails "reset" 0]))).
Proof.
  apply (Run_sleeps_in_range [ConnectFails "refused" (1 # 2); ConnectSucceeds;
                              ConnectFails "reset" 0]).
  repeat constructor; simpl; reflexivity || discriminate.
Defined.

Lemma ceiling_after_seven_witness :
  let fails := replicate 7 (ConnectFails "refused" 0) in
  backoff (Run fails) = maxBackoff <-> (7 <= length fails)%nat.
Proof.
  intros fails. apply (ceiling_after_seven fails).
  repeat constructor.
Defined.

Lemma close_frame_is_last_witness :
  let r := writeLoop toy_marshal two_turns live_client in
  exists new,
    conn r.1.1 = Some (mkConn ([] ++ new))
    /\ (Forall (fun f => is_close f = false) new
        \/ exists pre, new = pre ++ [CloseFrame 1000 ""]
                       /\ Forall (fun f => is_close f = false) pre
                       /\ r.2 = ExitCancelled).
Proof.
  apply (close_frame_is_last toy_marshal two_turns live_client []).
  reflexivity.
Defined.

Lemma wire_order_witness :
  let r := writeLoop toy_marshal two_turns live_client in
  exists new sent,
    conn r.1.1 = Some (mkConn ([] ++ new))
    /\ mapM toy_marshal sent = Some (flat_map frame_samples new)
    /\ sent ++ Backpressure.chan_queue (Backpressure.buffer (buffer r.1.1))
         `sublist_of` Backpressure.chan_queue (Backpressure.buffer (buffer live_client))
                      ++ script_pushed two_turns.
Proof.
  apply (wire_order toy_marshal two_turns live_client []).
  reflexivity.
Defined.

Lemma writer_ends_only_on_error_witness :
  let script := [mkTurn [4] ArmDefault false false true;
                 mkTurn [] ArmTicker false false true] in
  let exit := (writeLoop toy_marshal script live_client).2 in
  exit ∈ [StillRunning; Parked; ExitCancelled; ExitPingFailed; ExitSendFailed]
  /\ (Forall (fun t => turn_arm t <> ArmDone /\ turn_write_ok t = true) script ->
      (forall s, is_Some (toy_marshal s)) ->
      session_ended exit = false).
Proof.
  intros script.
  apply (writer_ends_only_on_error toy_marshal script live_client []).
  reflexivity.
Defined.

End WireFacts.

(** * Properties of the collector *)

Module CollectorFacts.
Import Backpressure Collector.

Section WithSample.

Context {Sample : Type}.
Variable describe : Sample -> list LogArg.

Implicit Types (ch : Chan Sample) (events : list (Event Sample)).

Lemma channel_full_warnings_cons_collected (s : Sample) log :
  channel_full_warnings (collected describe s :: log) = channel_full_warnings log.
Proof. unfold channel_full_warnings, collected. simpl. done. Qed.

(** The loop of [Start] with no consumer: the channel only grows, at its
    tail, and never beyond its capacity. *)
Lemma Start_loop_no_consumer events ch :
  no_consumer events -> chan_len ch <= chan_cap ch ->
  let '(ch', log, stop) := Start_loop describe events ch in
  chan_cap ch' = chan_cap ch
  /\ chan_queue ch `prefix_of` chan_queue ch'
  /\ chan_queue ch' `prefix_of` chan_queue ch ++ ticked events
  /\ chan_len ch' <= chan_cap ch.
Proof.
  intros Hno. revert ch. induction Hno as [|ev events Hev _ IH]; intros ch Hlen.
  { cbn [Start_loop ticked flat_map]. rewrite app_nil_r. done. }
  destruct ev as [s dn pick| |]; [| |done].
  - cbn [Start_loop ticked flat_map]. unfold chan_try_send.
    destruct (Z.ltb_spec (chan_len ch) (chan_cap ch)) as [Hfree|Hfull].
    + destruct (dn && pick).
      { split; [done|]. split; [done|]. split; [|done]. by apply prefix_app_r. }
      specialize (IH (mkChan (chan_cap ch) (chan_queue ch ++ [s]))).
      destruct (Start_loop describe events _) as [[ch2 log] stop].
      destruct IH as (Hcap & Hpre & Hpost & Hlen2).
      { unfold chan_len in *. cbn [chan_queue chan_cap]. rewrite length_app. simpl. lia. }
      cbn [chan_cap chan_queue] in *. split; [done|]. split.
      * etrans; [|exact Hpre]. by apply prefix_app_r.
      * split; [|done]. by rewrite <- app_assoc in Hpost.
    + destruct dn.
      { split; [done|]. split; [done|]. split; [|done]. by apply prefix_app_r. }
      specialize (IH ch Hlen).
      destruct (Start_loop describe events ch) as [[ch2 log] stop].
      destruct IH as (Hcap & Hpre & Hpost & Hlen2).
      split; [done|]. split; [done|]. split; [|done].
      assert (chan_len ch = chan_cap ch) as Heq by lia.
      assert (chan_queue ch2 = chan_queue ch) as ->.
      { destruct Hpre as [k Hk]. unfold chan_len in *. rewrite Hk in *.
        rewrite length_app in Hlen2. destruct k; [by rewrite app_nil_r|].
        simpl in Hlen2. lia. }
      by apply prefix_app_r.
  - cbn [Start_loop ticked flat_map]. split; [done|]. split; [done|].
    split; [|done]. by apply prefix_app_r.
Qed.

(** The loop of [Start] while the ticker fires and nobody receives: the
    channel fills up and stays as it is, one warning for each sample that
    finds it full. *)
Lemma Start_loop_live_ticks events ch :
  only_live_ticks events -> chan_len ch <= chan_cap ch ->
  let '(ch', log, stop) := Start_loop describe events ch in
  stop = Ticking
  /\ chan_cap ch' = chan_cap ch
  /\ chan_queue ch' = take (Z.to_nat (chan_cap ch)) (chan_queue ch ++ ticked events)
  /\ channel_full_warnings log
     = (length (chan_queue ch) + length events - Z.to_nat (chan_cap ch))%nat.
Proof.
  intros Hticks. revert ch. induction Hticks as [|ev events Hev _ IH]; intros ch Hlen.
  { cbn [Start_loop ticked flat_map length]. rewrite app_nil_r.
    unfold chan_len in Hlen. rewrite take_ge by lia.
    repeat split. unfold channel_full_warnings. simpl. lia. }
  destruct ev as [s [|] pick| |]; try done.
  cbn [Start_loop ticked flat_map length]. unfold chan_try_send.
  destruct (Z.ltb_spec (chan_len ch) (chan_cap ch)) as [Hfree|Hfull].
  - cbn [andb].
    specialize (IH (mkChan (chan_cap ch) (chan_queue ch ++ [s]))).
    destruct (Start_loop describe events _) as [[ch2 log] stop].
    destruct IH as (Hstop & Hcap & Hq & Hw).
    { unfold chan_len in *. cbn [chan_queue chan_cap]. rewrite length_app. simpl. lia. }
    cbn [chan_cap chan_queue] in *. split; [done|]. split; [done|]. split.
    + rewrite Hq, <- app_assoc. done.
    + rewrite channel_full_warnings_cons_collected, Hw, length_app. simpl. lia.
  - specialize (IH ch Hlen).
    destruct (Start_loop describe events ch) as [[ch2 log] stop].
    destruct IH as (Hstop & Hcap & Hq & Hw).
    split; [done|]. split; [done|].
    unfold chan_len in *. split.
    + rewrite Hq, !take_app_le by lia. done.
    + rewrite channel_full_warnings_cons_collected.
      change (channel_full_warnings (channel_full :: log))
        with (S (channel_full_warnings log)).
      rewrite Hw. lia.
Qed.

(** X15. The collector keeps the oldest samples.  Started on an empty
    channel of capacity [C >= 1] with a positive interval, while the ticker
    fires, the context is live and nobody receives, [Start] leaves in the
    channel the first [C] samples it collected, in order, and logs the
    warning of a full channel once for every later sample: what is dropped
    is the new sample, never a queued one. *)
Theorem Start_keeps_oldest (interval C : Z) (first : Sample) (pick0 : bool) events :
  0 < interval -> 1 <= C -> only_live_ticks events ->
  exists ch log,
    Start describe interval first false pick0 events (mkChan C [])
      = (ch, log, Ticking)
    /\ chan_cap ch = C
    /\ chan_queue ch = take (Z.to_nat C) (first :: ticked events)
    /\ channel_full_warnings log = (S (length events) - Z.to_nat C)%nat.
Proof.
  intros Hint HC Hticks. unfold Start.
  destruct (Z.leb_spec interval 0) as [|_]; [lia|].
  unfold chan_try_send, chan_len. cbn [chan_queue chan_cap length andb].
  destruct (Z.ltb_spec (Z.of_nat 0) C) as [_|]; [|lia].
  pose proof (Start_loop_live_ticks events (mkChan C ([] ++ [first])) Hticks) as H.
  destruct (Start_loop describe events _) as [[ch log] stop].
  destruct H as (-> & Hcap & Hq & Hw).
  { unfold chan_len. simpl. lia. }
  cbn [chan_cap chan_queue app length] in *.
  eexists _, _. split; [reflexivity|]. split; [done|]. split; [done|].
  change (channel_full_warnings (_ :: collected describe first :: log))
    with (channel_full_warnings (collected describe first :: log)).
  rewrite channel_full_warnings_cons_collected, Hw. lia.
Qed.

(** X16. The collector never takes a sample out of the channel and never
    reorders: with no consumer, whatever the ticks and the cancellations,
    the channel after [Start] begins with what it held, what was added is
    a prefix of the samples collected, in the order of collection, and the
    capacity is respected. *)
Theorem Start_only_appends (interval : Z) (first : Sample) (done0 pick0 : bool)
    events ch :
  no_consumer events -> chan_len ch <= chan_cap ch ->
  let '(ch', log, stop) := Start describe interval first done0 pick0 events ch in
  chan_cap ch' = chan_cap ch
  /\ chan_queue ch `prefix_of` chan_queue ch'
  /\ chan_queue ch' `prefix_of` chan_queue ch ++ first :: ticked events
  /\ chan_len ch' <= chan_cap ch.
Proof.
  intros Hno Hlen. unfold Start.
  assert (chan_cap ch = chan_cap ch
          /\ chan_queue ch `prefix_of` chan_queue ch
          /\ chan_queue ch `prefix_of` chan_queue ch ++ first :: ticked events
          /\ chan_len ch <= chan_cap ch) as Hsame.
  { split; [done|]. split; [done|]. split; [|done]. by apply prefix_app_r. }
  destruct (interval <=? 0); [exact Hsame|].
  unfold chan_try_send.
  destruct (Z.ltb_spec (chan_len ch) (chan_cap ch)) as [Hfree|Hfull].
  - destruct (done0 && pick0); [exact Hsame|].
    pose proof (Start_loop_no_consumer events
                  (mkChan (chan_cap ch) (chan_queue ch ++ [first])) Hno) as H.
    destruct (Start_loop describe events _) as [[ch2 log] stop].
    destruct H as (Hcap & Hpre & Hpost & Hlen2).
    { unfold chan_len in *. cbn [chan_queue chan_cap]. rewrite length_app. simpl. lia. }
    cbn [chan_cap chan_queue] in *. split; [done|]. split.
    + etrans; [|exact Hpre]. by apply prefix_app_r.
    + split; [|done]. by rewrite <- app_assoc in Hpost.
  - destruct done0; exact Hsame.
Qed.


End WithSample.

(** Instances at [Sample := Z]. *)

Lemma Start_keeps_oldest_witness :
  exists ch log,
    Start describe_Z 2000000000 1 false false
      [Tick 2 false false; Tick 3 false true; Tick 4 false false] (mkChan 2 [])
      = (ch, log, Ticking)
    /\ chan_cap ch = 2
    /\ chan_queue ch = take (Z.to_nat 2) (1 :: ticked [Tick 2 false false; Tick 3 false true; Tick 4 false false])
    /\ channel_full_warnings log = (S (length [Tick 2 false false; Tick 3 false true; Tick 4 false false]) - Z.to_nat 2)%nat.
Proof.
  apply (Start_keeps_oldest describe_Z 2000000000 2 1 false
           [Tick 2 false false; Tick 3 false true; Tick 4 false false]).
  - lia.
  - lia.
  - unfold only_live_ticks. repeat constructor.
Defined.

Lemma Start_only_appends_witness :
  let '(ch', log, stop) :=
    Start describe_Z 2000000000 1 false false
      [Tick 2 false false; Tick 3 false false; Cancelled] (mkChan 2 [7]) in
  chan_cap ch' = chan_cap (mkChan 2 [7])
  /\ chan_queue (mkChan 2 [7]) `prefix_of` chan_queue ch'
  /\ chan_queue ch' `prefix_of`
       chan_queue (mkChan 2 [7]) ++ 1 :: ticked [Tick 2 false false; Tick 3 false false; Cancelled]
  /\ chan_len ch' <= chan_cap (mkChan 2 [7]).
Proof.
  apply (Start_only_appends describe_Z 2000000000 1 false false
           [Tick 2 false false; Tick 3 false false; Cancelled] (mkChan 2 [7])).
  - unfold no_consumer. repeat constructor.
  - vm_compute. discriminate.
Defined.


End CollectorFacts.

(** * Properties of the path from the collector to the writer *)

Module PipelineFacts.
Import Backpressure Collector Pipeline BackpressureFacts CollectorFacts.

Section WithSample.

Context {Sample : Type}.
Variable describe : Sample -> list LogArg.

Implicit Types (p : Pipe Sample) (evs : list (Sched Sample)).

Lemma run_reachable size ops (tr : Trace Sample) :
  reachable size (tr_buffer tr) -> reachable size (tr_buffer (run ops tr)).
Proof.
  revert tr. induction ops as [|[s|dn pick maxCount] ops IH]; intros tr Hb; [done| |].
  - simpl. destruct (Push s (tr_buffer tr)) as [r b' log n| |] eqn:E; [|by apply IH..].
    apply IH. cbn [tr_buffer]. by eapply (Push_preserves size s).
  - simpl.
    destruct (PopBatch dn pick maxCount (tr_buffer tr)) as [[batch|] b' log n| |] eqn:E;
      try (by apply IH); apply IH; cbn [tr_buffer];
      by eapply (PopBatch_preserves size dn pick maxCount).
Qed.

(** One tick of the collector on a live context. *)
Lemma Start_loop_tick (s : Sample) ch :
  Start_loop describe [Tick s false false] ch
  = if chan_len ch <? chan_cap ch
    then (mkChan (chan_cap ch) (chan_queue ch ++ [s]), [collected describe s], Ticking)
    else (ch, [collected describe s; channel_full], Ticking).
Proof.
  cbn [Start_loop]. unfold chan_try_send. by destruct (chan_len ch <? chan_cap ch).
Qed.

Lemma channel_full_warnings_app (l1 l2 : list LogEntry) :
  channel_full_warnings (l1 ++ l2)
  = (channel_full_warnings l1 + channel_full_warnings l2)%nat.
Proof. unfold channel_full_warnings. by rewrite List.filter_app, length_app. Qed.

Lemma collected_samples_cons ev evs :
  collected_samples (ev :: evs) = collected_samples [ev] ++ collected_samples evs.
Proof. unfold collected_samples. simpl. by rewrite app_nil_r. Qed.

Lemma step_in_order p ev P :
  in_flight p `sublist_of` P ->
  in_flight (step describe p ev) `sublist_of` P ++ collected_samples [ev].
Proof.
  intros HP. destruct ev as [s| |pick maxCount]; cbn [collected_samples flat_map app].
  - cbn [step]. rewrite Start_loop_tick.
    destruct (chan_len (sampleChan p) <? chan_cap (sampleChan p));
      unfold in_flight in *; cbn [sampleChan trace chan_queue].
    + rewrite app_assoc. by apply sublist_app.
    + by apply sublist_inserts_r.
  - rewrite app_nil_r. cbn [step]. unfold bufferSamples_step, chan_try_recv.
    destruct (chan_queue (sampleChan p)) as [|s q] eqn:Hq; [done|].
    unfold in_flight in *. cbn [sampleChan trace chan_queue]. rewrite Hq in HP.
    etrans; [|exact HP].
    change (s :: q) with ([s] ++ q). rewrite app_assoc. apply sublist_app; [|done].
    by apply (run_sublist [OpPush s] (trace p) (retained (trace p))).
  - rewrite app_nil_r. cbn [step]. unfold in_flight in *. cbn [sampleChan trace].
    etrans; [|exact HP]. apply sublist_app; [|done].
    pose proof (run_sublist [OpPopBatch false pick maxCount] (trace p)
                  (retained (trace p)) ltac:(done)) as H.
    by rewrite app_nil_r in H.
Qed.

(** X18. From the collector to the writer, samples stay in order.  Under
    any schedule of the collector, [bufferSamples] and the [PopBatch]
    calls of the writer, the samples delivered to the writer, followed by
    those in the buffer, followed by those in the channel, are a
    subsequence of what was there followed by the samples collected, in
    the order of collection: nothing is duplicated or overtaken on the
    way. *)
Theorem pipeline_in_order evs p :
  in_flight (pipeline describe evs p)
    `sublist_of` in_flight p ++ collected_samples evs.
Proof.
  assert (forall P, in_flight p `sublist_of` P ->
            in_flight (pipeline describe evs p) `sublist_of` P ++ collected_samples evs)
    as H; [|by apply H].
  revert p. induction evs as [|ev evs IH]; intros p P HP.
  { simpl. by rewrite app_nil_r. }
  change (pipeline describe (ev :: evs) p)
    with (pipeline describe evs (step describe p ev)).
  rewrite collected_samples_cons.
  rewrite app_assoc. apply IH. by apply step_in_order.
Qed.

Lemma step_account size p ev :
  sound size p ->
  sound size (step describe p ev)
  /\ accounted (step describe p ev)
     = (accounted p + length (collected_samples [ev]))%nat.
Proof.
  intros [Hb Hlen]. unfold sound, accounted, in_flight.
  destruct ev as [s| |pick maxCount]; cbn [collected_samples flat_map app length].
  - cbn [step]. rewrite Start_loop_tick.
    destruct (Z.ltb_spec (chan_len (sampleChan p)) (chan_cap (sampleChan p)));
      cbn [sampleChan trace collector_log chan_queue chan_cap]; split.
    + split; [done|]. unfold chan_len in *. cbn [chan_queue chan_cap].
      rewrite length_app. simpl. lia.
    + rewrite channel_full_warnings_app, !length_app.
      rewrite channel_full_warnings_cons_collected.
      change (channel_full_warnings []) with 0%nat. simpl. lia.
    + done.
    + rewrite channel_full_warnings_app, channel_full_warnings_cons_collected.
      change (channel_full_warnings [channel_full]) with 1%nat. lia.
  - cbn [step]. unfold bufferSamples_step, chan_try_recv.
    destruct (chan_queue (sampleChan p)) as [|s q] eqn:Hq.
    { split; [done|]. rewrite Hq. lia. }
    cbn [sampleChan trace collector_log chan_queue chan_cap]. split.
    + split; [by apply run_reachable|].
      unfold chan_len in *. rewrite Hq in Hlen. cbn [chan_queue chan_cap].
      simpl in Hlen. lia.
    + pose proof (run_account size [OpPush s] (trace p) Hb) as H.
      remember (run [OpPush s] (trace p)) as tr' eqn:Htr; clear Htr.
      unfold retained in *. rewrite !length_app in *.
      cbn [pushed flat_map app length] in *. lia.
  - cbn [step sampleChan trace collector_log]. split.
    + split; [by apply run_reachable | done].
    + pose proof (run_account size [OpPopBatch false pick maxCount] (trace p) Hb) as H.
      remember (run [OpPopBatch false pick maxCount] (trace p)) as tr' eqn:Htr; clear Htr.
      unfold retained in *. rewrite !length_app in *.
      cbn [pushed flat_map app length] in *. lia.
Qed.

(** X19. Every sample is accounted for.  From a sound state, under any
    schedule, each sample the collector collected is either delivered to
    the writer, or still queued in the buffer or in the channel, or was
    lost in a [Push] that moved the drop counter of the buffer, or was
    dropped by the collector on a full channel with its warning. *)
Theorem pipeline_accounts size evs p :
  sound size p ->
  (length (in_flight (pipeline describe evs p))
   + tr_evictions (trace (pipeline describe evs p))
   + channel_full_warnings (collector_log (pipeline describe evs p))
   = length (in_flight p) + tr_evictions (trace p)
     + channel_full_warnings (collector_log p)
     + length (collected_samples evs))%nat.
Proof.
  fold (accounted (pipeline describe evs p)). fold (accounted p).
  revert p. induction evs as [|ev evs IH]; intros p Hp.
  { simpl. lia. }
  change (pipeline describe (ev :: evs) p)
    with (pipeline describe evs (step describe p ev)).
  rewrite collected_samples_cons.
  destruct (step_account size p ev Hp) as [Hp' E].
  rewrite (IH _ Hp'), E, length_app. lia.
Qed.

End WithSample.

Lemma pipeline_accounts_witness :
  let p := mkPipe (mkChan 1 []) (mkTrace (mkBuffer (mkChan 1 []) 1 0) [] 0) [] in
  let evs := [SCollect 1; SCollect 2; SFeed; SCollect 3; SFeed; SPop false 10;
              SCollect 4; SCollect 5; SFeed] in
  (length (in_flight (pipeline describe_Z evs p))
   + tr_evictions (trace (pipeline describe_Z evs p))
   + channel_full_warnings (collector_log (pipeline describe_Z evs p))
   = length (in_flight p) + tr_evictions (trace p)
     + channel_full_warnings (collector_log p)
     + length (collected_samples evs))%nat.
Proof.
  intros p evs. apply (pipeline_accounts describe_Z 1 evs p).
  split.
  - apply reach_new. reflexivity.
  - vm_compute. discriminate.
Defined.

End PipelineFacts.

(** * Properties of the configuration *)

Module ConfigFacts.
Import Config.

Lemma default_endpoints_spec cfg dashboard api :
  default_endpoints cfg dashboard api
  = mkConfig (Env cfg)
      (if String.eqb (DashboardURL cfg) EmptyString then dashboard else DashboardURL cfg)
      (if String.eqb (APIURL cfg) EmptyString then api else APIURL cfg)
      (MetricsIntervalMs cfg) (OpenOnStart cfg) (DeviceCode cfg)
      (ConfigDir cfg) (LogDir cfg).
Proof.
  unfold default_endpoints, set_DashboardURL, set_APIURL. destruct cfg as [e d a m o c cd ld].
  cbn [Env DashboardURL APIURL MetricsIntervalMs OpenOnStart DeviceCode ConfigDir LogDir].
  destruct (String.eqb d EmptyString);
    cbn [Env DashboardURL APIURL MetricsIntervalMs OpenOnStart DeviceCode ConfigDir LogDir];
    by destruct (String.eqb a EmptyString).
Qed.

Lemma set_endpoints_spec cfg :
  exists dashboard api,
    (dashboard, api) ∈ known_endpoints
    /\ set_endpoints cfg = default_endpoints cfg dashboard api
    /\ (Env cfg ∉ ["localdev"; "localprod"; "localdockerprod"] ->
        dashboard = DashboardURLRemoteProd /\ api = APIURLRemoteProd).
Proof.
  unfold set_endpoints, known_endpoints.
  destruct (String.eqb_spec (Env cfg) "localdev") as [E|_].
  { eexists _, _. split; [|split; [reflexivity|]].
    - rewrite !elem_of_cons. auto.
    - intros H. exfalso. apply H. rewrite E, !elem_of_cons. auto. }
  destruct (String.eqb_spec (Env cfg) "localprod") as [E|_].
  { eexists _, _. split; [|split; [reflexivity|]].
    - rewrite !elem_of_cons. auto.
    - intros H. exfalso. apply H. rewrite E, !elem_of_cons. auto. }
  destruct (String.eqb_spec (Env cfg) "localdockerprod") as [E|_].
  { eexists _, _. split; [|split; [reflexivity|]].
    - rewrite !elem_of_cons. auto.
    - intros H. exfalso. apply H. rewrite E, !elem_of_cons. auto. }
  exists DashboardURLRemoteProd, APIURLRemoteProd.
  split; [rewrite !elem_of_cons; auto 10|]. split; [|done].
  by destruct (String.eqb (Env cfg) "remoteprod").
Qed.

Lemma known_endpoints_nonempty dashboard api :
  (dashboard, api) ∈ known_endpoints -> dashboard <> EmptyString /\ api <> EmptyString.
Proof.
  unfold known_endpoints. rewrite !elem_of_cons, elem_of_nil.
  intros [H|[H|[H|[H|[]]]]]; injection H as -> ->; by split.
Qed.

(** X20. What [Load] returns is usable.  Whenever [Load] succeeds, both
    addresses of the configuration are non-empty; an address given by the
    file or the variables is kept as it is, whatever [env] says; the other
    fields are those read, with the two directories set; and a
    configuration file is written exactly when none existed, always with
    the default contents. *)
Theorem Load_result ensureDirs unmarshalled configDir logDir file_exists writeFile
    cfg written :
  Load ensureDirs unmarshalled configDir logDir file_exists writeFile
    = (inl cfg, written) ->
  exists cfg0,
    unmarshalled = inl cfg0
    /\ DashboardURL cfg <> EmptyString /\ APIURL cfg <> EmptyString
    /\ (DashboardURL cfg0 <> EmptyString -> DashboardURL cfg = DashboardURL cfg0)
    /\ (APIURL cfg0 <> EmptyString -> APIURL cfg = APIURL cfg0)
    /\ Env cfg = Env cfg0 /\ MetricsIntervalMs cfg = MetricsIntervalMs cfg0
    /\ OpenOnStart cfg = OpenOnStart cfg0 /\ DeviceCode cfg = DeviceCode cfg0
    /\ ConfigDir cfg = configDir /\ LogDir cfg = logDir
    /\ written = (if file_exists then None else Some default_config).
Proof.
  unfold Load. intros H.
  destruct ensureDirs; [done|]. destruct unmarshalled as [cfg0|]; [|done].
  exists cfg0. split; [done|].
  assert (cfg = set_dirs (set_endpoints cfg0) configDir logDir
          /\ written = (if file_exists then None else Some default_config)) as [-> ->].
  { destruct file_exists; [by injection H as <- <-|].
    destruct writeFile; [done|]. by injection H as <- <-. }
  destruct (set_endpoints_spec cfg0) as (d & a & Hin & -> & _).
  apply known_endpoints_nonempty in Hin as [Hd Ha].
  rewrite default_endpoints_spec. unfold set_dirs.
  cbn [Env DashboardURL APIURL MetricsIntervalMs OpenOnStart DeviceCode ConfigDir LogDir].
  destruct (String.eqb_spec (DashboardURL cfg0) EmptyString);
    destruct (String.eqb_spec (APIURL cfg0) EmptyString); repeat split; done.
Qed.

(** X21. The fallback of the environment.  Setting the endpoints twice is
    setting them once; an [env] that is none of [localdev], [localprod]
    and [localdockerprod] is treated as [remoteprod]; with neither file
    nor variables the configuration in memory is the one
    [writeDefaultConfig] writes; and with the addresses of that file, the
    value of [env] no longer has any effect. *)
Theorem set_endpoints_fallback cfg :
  set_endpoints (set_endpoints cfg) = set_endpoints cfg
  /\ (Env cfg ∉ ["localdev"; "localprod"; "localdockerprod"] ->
      set_endpoints cfg
      = default_endpoints cfg DashboardURLRemoteProd APIURLRemoteProd)
  /\ set_endpoints viper_defaults = default_config
  /\ (DashboardURL cfg = DashboardURL default_config ->
      APIURL cfg = APIURL default_config ->
      set_endpoints cfg = cfg).
Proof.
  split; [|split; [|split]].
  - destruct (set_endpoints_spec cfg) as (d & a & Hin & E & _).
    apply known_endpoints_nonempty in Hin as [Hd Ha].
    destruct (set_endpoints_spec (set_endpoints cfg)) as (d' & a' & _ & E' & _).
    rewrite E', E, !default_endpoints_spec.
    cbn [Env DashboardURL APIURL MetricsIntervalMs OpenOnStart DeviceCode ConfigDir LogDir].
    destruct (String.eqb_spec (DashboardURL cfg) EmptyString) as [_|Hd'];
      destruct (String.eqb_spec (APIURL cfg) EmptyString) as [_|Ha'];
      repeat match goal with
        | |- context [String.eqb ?x EmptyString] =>
            destruct (String.eqb_spec x EmptyString); [done|]
        end; done.
  - intros Henv. destruct (set_endpoints_spec cfg) as (d & a & _ & E & H).
    destruct (H Henv) as [-> ->]. done.
  - reflexivity.
  - intros Hd Ha. destruct (set_endpoints_spec cfg) as (d & a & _ & -> & _).
    rewrite default_endpoints_spec. destruct cfg as [e du au m o c cd ld].
    cbn [DashboardURL APIURL default_config] in Hd, Ha. subst du au. reflexivity.
Qed.

Lemma Load_result_witness :
  let read := mkConfig "localdev" "http://dash.example" EmptyString 500 false
                EmptyString EmptyString EmptyString in
  let cfg := mkConfig "localdev" "http://dash.example" APIURLLocalDev 500 false
               EmptyString "/cfg" "/log" in
  exists cfg0,
    @inl Config string read = inl cfg0
    /\ DashboardURL cfg <> EmptyString /\ APIURL cfg <> EmptyString
    /\ (DashboardURL cfg0 <> EmptyString -> DashboardURL cfg = DashboardURL cfg0)
    /\ (APIURL cfg0 <> EmptyString -> APIURL cfg = APIURL cfg0)
    /\ Env cfg = Env cfg0 /\ MetricsIntervalMs cfg = MetricsIntervalMs cfg0
    /\ OpenOnStart cfg = OpenOnStart cfg0 /\ DeviceCode cfg = DeviceCode cfg0
    /\ ConfigDir cfg = "/cfg" /\ LogDir cfg = "/log"
    /\ Some default_config = (if false then None else Some default_config).
Proof.
  intros read cfg.
  apply (Load_result None (inl read) "/cfg" "/log" false None cfg (Some default_config)).
  reflexivity.
Defined.

End ConfigFacts.

(** * Properties of the pairing *)

Module PairingFacts.
Import Config Pairing.

Section WithDecoders.

Variable decode_token : string -> string + string.

Lemma ExchangeCode_result polls :
  (ExchangeCode decode_token polls).2 = (ExchangeCode_loop decode_token polls).2.
Proof. unfold ExchangeCode. by destruct (ExchangeCode_loop decode_token polls). Qed.

Lemma ExchangeCode_loop_skip p polls :
  inconclusive p = true ->
  (ExchangeCode_loop decode_token (p :: polls)).2
  = (ExchangeCode_loop decode_token polls).2.
Proof.
  destruct p as [e|e|e|status body]; cbn [inconclusive ExchangeCode_loop]; [done| | |].
  - intros _. by destruct (ExchangeCode_loop decode_token polls).
  - intros _. by destruct (ExchangeCode_loop decode_token polls).
  - intros H. apply andb_true_iff in H as [H1 H2].
    apply negb_true_iff in H1, H2. rewrite H1, H2.
    destruct (status =? 404); by destruct (ExchangeCode_loop decode_token polls).
Qed.

(** X22. The polling never gives up by itself.  Rounds in which the
    request cannot be built or sent, and answers with any status other
    than 200 and 410 (404 while the approval is pending, but also 500),
    leave [ExchangeCode] polling: its result is the result of the rounds
    that follow, and there is none while only such rounds have passed. *)
Theorem ExchangeCode_keeps_polling pre rest :
  forallb inconclusive pre = true ->
  (ExchangeCode decode_token (pre ++ rest)).2 = (ExchangeCode decode_token rest).2
  /\ (ExchangeCode decode_token pre).2 = None.
Proof.
  rewrite !ExchangeCode_result. induction pre as [|p pre IH]; [done|].
  cbn [forallb app]. intros H. apply andb_true_iff in H as [Hp Hpre].
  rewrite !ExchangeCode_loop_skip by done. by apply IH.
Qed.

(** X23. Where the token comes from.  If [ExchangeCode] returns without an
    error, the token is the one decoded from the body of the first answer
    with status 200, and nothing but inconclusive rounds came before it;
    if it returns an error, the token is the empty string. *)
Theorem ExchangeCode_token_origin polls tok e :
  (ExchangeCode decode_token polls).2 = Some (tok, e) ->
  match e with
  | None =>
      exists pre body rest,
        polls = pre ++ PollStatus 200 body :: rest
        /\ forallb inconclusive pre = true
        /\ decode_token body = inl tok
  | Some _ => tok = EmptyString
  end.
Proof.
  rewrite ExchangeCode_result. induction polls as [|p polls IH]; [done|].
  destruct (inconclusive p) eqn:Hp.
  { rewrite ExchangeCode_loop_skip by done. intros H. specialize (IH H).
    destruct e; [done|]. destruct IH as (pre & body & rest & -> & Hpre & Hd).
    exists (p :: pre), body, rest. split; [done|]. split; [|done].
    cbn [forallb]. by rewrite Hp. }
  destruct p as [e'|e'|e'|status body]; cbn [inconclusive] in Hp; try done.
  - cbn [ExchangeCode_loop snd]. by intros [= <- <-].
  - cbn [ExchangeCode_loop]. destruct (Z.eqb_spec status 200) as [->|H200].
    + destruct (decode_token body) as [t|err] eqn:Hd; cbn [snd]; intros [= <- <-]; [|done].
      by exists [], body, polls.
    + destruct (Z.eqb_spec status 410) as [->|H410]; [|done].
      cbn [Z.eqb Pos.eqb snd]. by intros [= <- <-].
Qed.

Variable decode_code : string -> (string * Time) + string.
Variable format_time : Time -> string.
Variable format_status : Z -> string.


End WithDecoders.

Section WithFormat.

Variable format_time : Time -> string.

Lemma keyring_Get_Set kr service user password :
  keyring_Get (keyring_Set kr service user password) service user = inl password.
Proof.
  unfold keyring_Get, keyring_Set. cbn [List.find]. unfold same_key at 1.
  cbn [fst snd]. by rewrite !String.eqb_refl.
Qed.

Lemma GetToken_effects down kr deviceID :
  Forall (fun e => reaches_out e = false) (GetToken down kr deviceID).1.
Proof.
  unfold GetToken. destruct down; [by repeat constructor|].
  destruct (keyring_Get kr KeychainService deviceID); by repeat constructor.
Qed.

(** The path of a device that is paired already. *)
Lemma EnsurePaired_paired a kr cfg id tok :
  protectedID a = inl id -> keychain_down a = None ->
  keyring_Get kr KeychainService id = inl tok -> tok <> EmptyString ->
  EnsurePaired format_time a kr cfg
  = mkPaired tok false None kr cfg
      [ELog (Log DebugLevel [LStr "Retrieving token from keychain"; LStr "deviceId";
                             LStr id]);
       ELog (Log DebugLevel [LStr "✅ Token retrieved from keychain"]);
       ELog (Log DebugLevel [LStr "Device already paired"; LStr "deviceId"; LStr id])].
Proof.
  intros Hid Hup Hget Htok. unfold EnsurePaired, GetMachineID, GetToken.
  rewrite Hid, Hup, Hget. cbn [bool_decide andb].
  destruct (String.eqb_spec tok EmptyString); [done|]. reflexivity.
Qed.

(** X24. A paired device is left alone.  When the keychain holds a
    non-empty token for the machine id, [EnsurePaired] returns that token
    with [firstRun = false] and no error, and does nothing else: no
    request to the backend, no browser, the configuration and the
    keychain untouched, nothing printed. *)
Theorem paired_device_left_alone a kr cfg id tok :
  protectedID a = inl id -> keychain_down a = None ->
  keyring_Get kr KeychainService id = inl tok -> tok <> EmptyString ->
  let r := EnsurePaired format_time a kr cfg in
  token r = tok /\ firstRun r = false /\ err r = None
  /\ keyring_after r = kr /\ cfg_after r = cfg
  /\ Forall (fun e => match e with ELog _ => True | _ => False end) (effects r).
Proof.
  intros Hid Hup Hget Htok r. subst r.
  rewrite (EnsurePaired_paired a kr cfg id tok) by done.
  cbn [token firstRun err keyring_after cfg_after effects].
  repeat split. by repeat constructor.
Qed.

(** X25. No token with an error.  Whenever [EnsurePaired] returns an
    error, the token it returns is the empty string, even if the API
    handed one over with its error, and the keychain is as before;
    [firstRun] is then true exactly when the machine id could be read. *)
Theorem error_means_no_token a kr cfg :
  err (EnsurePaired format_time a kr cfg) <> None ->
  token (EnsurePaired format_time a kr cfg) = EmptyString
  /\ keyring_after (EnsurePaired format_time a kr cfg) = kr
  /\ (firstRun (EnsurePaired format_time a kr cfg) = true
      <-> exists id, protectedID a = inl id).
Proof.
  unfold EnsurePaired, GetMachineID.
  destruct (protectedID a) as [id|e] eqn:Hid.
  2:{ intros _. cbn [token keyring_after firstRun]. split; [done|]. split; [done|].
      split; [done|]. by intros [? ?]. }
  assert (forall tok0 e0 kr0 cfg0 effects0,
            kr0 = kr ->
            err (mkPaired tok0 true (Some e0) kr0 cfg0 effects0) <> None ->
            EmptyString = EmptyString
            /\ kr0 = kr
            /\ (true = true <-> exists id0, @inl string string id = inl id0)) as Hfail.
  { intros. split; [done|]. split; [done|]. split; [eauto|done]. }
  destruct (GetToken (keychain_down a) kr id) as [get_effects [stored get_err]].
  destruct (bool_decide (get_err = None) && negb (String.eqb stored EmptyString)).
  { cbn [err]. done. }
  destruct (api_RequestCode a) as [[code expiresAt] [e|]].
  { intros H. cbn [token keyring_after firstRun]. by eapply Hfail. }
  destruct (api_ExchangeCode a code expiresAt) as [tok [e|]].
  { intros H. cbn [token keyring_after firstRun]. by eapply Hfail. }
  unfold SaveToken. destruct (keychain_down a) as [e|].
  { intros H. cbn [token keyring_after firstRun]. by eapply Hfail. }
  cbn [err]. done.
Qed.

(** X26. Pairing is done once.  After a call of [EnsurePaired] that
    returned a non-empty token without error, a further call for the same
    machine, with the keychain it left and the keychain in use, returns
    the same token with [firstRun = false] and reaches neither the backend
    nor the browser nor the configuration file. *)
Theorem pairing_is_done_once a a' kr cfg cfg' :
  err (EnsurePaired format_time a kr cfg) = None ->
  token (EnsurePaired format_time a kr cfg) <> EmptyString ->
  protectedID a' = protectedID a -> keychain_down a' = None ->
  let r := EnsurePaired format_time a kr cfg in
  let r' := EnsurePaired format_time a' (keyring_after r) cfg' in
  token r' = token r /\ firstRun r' = false /\ err r' = None
  /\ keyring_after r' = keyring_after r /\ cfg_after r' = cfg'
  /\ Forall (fun e => reaches_out e = false) (effects r').
Proof.
  intros Herr Htok Hid Hup r r'.
  assert (exists id, protectedID a = inl id
                     /\ keyring_Get (keyring_after r) KeychainService id = inl (token r))
    as (id & Hida & Hget).
  { subst r r'. revert Herr Htok. unfold EnsurePaired, GetMachineID.
    destruct (protectedID a) as [id|e] eqn:Hida; [|done].
    unfold GetToken.
    destruct (keychain_down a) as [e|] eqn:Hdown.
    - cbn [bool_decide andb]. rewrite bool_decide_eq_false_2 by done. cbn [andb].
      destruct (api_RequestCode a) as [[code expiresAt] [e1|]]; [done|].
      destruct (api_ExchangeCode a code expiresAt) as [tok [e1|]]; [done|].
      unfold SaveToken. done.
    - destruct (keyring_Get kr KeychainService id) as [stored|e] eqn:Hget.
      + rewrite bool_decide_eq_true_2 by done. cbn [andb].
        destruct (String.eqb_spec stored EmptyString) as [->|Hne]; cbn [negb].
        * destruct (api_RequestCode a) as [[code expiresAt] [e1|]]; [done|].
          destruct (api_ExchangeCode a code expiresAt) as [tok [e1|]]; [done|].
          unfold SaveToken. cbn [token keyring_after]. intros _ _.
          exists id. split; [done|]. apply keyring_Get_Set.
        * cbn [token keyring_after]. intros _ _. by exists id.
      + rewrite bool_decide_eq_false_2 by done. cbn [andb].
        destruct (api_RequestCode a) as [[code expiresAt] [e1|]]; [done|].
        destruct (api_ExchangeCode a code expiresAt) as [tok [e1|]]; [done|].
        unfold SaveToken. cbn [token keyring_after]. intros _ _.
        exists id. split; [done|]. apply keyring_Get_Set. }
  subst r'.
  rewrite (EnsurePaired_paired a' (keyring_after r) cfg' id (token r)); try done.
  - cbn [token firstRun err keyring_after cfg_after effects].
    repeat split. by repeat constructor.
  - by rewrite Hid.
Qed.

End WithFormat.

(** ** The token store *)

Lemma same_key_other service user user' entry :
  user' <> user -> same_key service user entry = true ->
  same_key service user' entry = false.
Proof.
  unfold same_key. intros Hne H. apply andb_true_iff in H as [_ H].
  apply String.eqb_eq in H. rewrite H. apply andb_false_iff. right.
  by apply String.eqb_neq.
Qed.

Lemma find_filter_other (kr : Keyring) service user user' :
  user' <> user ->
  List.find (same_key service user')
    (List.filter (fun entry => negb (same_key service user entry)) kr)
  = List.find (same_key service user') kr.
Proof.
  intros Hne. induction kr as [|entry kr IH]; [done|].
  cbn [List.filter List.find].
  destruct (same_key service user entry) eqn:E; cbn [negb].
  - rewrite (same_key_other service user user' entry Hne E). exact IH.
  - cbn [List.find]. by rewrite IH.
Qed.

Lemma find_filter_same (kr : Keyring) service user :
  List.find (same_key service user)
    (List.filter (fun entry => negb (same_key service user entry)) kr) = None.
Proof.
  induction kr as [|entry kr IH]; [done|]. cbn [List.filter].
  destruct (same_key service user entry) eqn:E; cbn [negb]; [exact IH|].
  cbn [List.find]. by rewrite E.
Qed.

(** X28. The token store keeps one token for each device.  With the
    keychain as a table of secrets by service and user: after [SaveToken]
    for a device, [GetToken] for that device returns the token saved,
    whatever was stored before, and the tokens of the other devices are
    as they were; after [DeleteToken], [GetToken] for the device fails
    and a second [DeleteToken] fails too. *)
Theorem token_store_round_trip (kr : Keyring) deviceID tok :
  let kr1 := (SaveToken None kr deviceID tok).1.1 in
  let kr2 := (DeleteToken None kr1 deviceID).1.1 in
  (SaveToken None kr deviceID tok).2 = None
  /\ (GetToken None kr1 deviceID).2 = (tok, None)
  /\ (forall other, other <> deviceID ->
        (GetToken None kr1 other).2 = (GetToken None kr other).2)
  /\ (DeleteToken None kr1 deviceID).2 = None
  /\ (GetToken None kr2 deviceID).2 = (EmptyString, Some "secret not found in keyring")
  /\ (DeleteToken None kr2 deviceID).2 = Some "secret not found in keyring"
  /\ (forall other, other <> deviceID ->
        (GetToken None kr2 other).2 = (GetToken None kr other).2).
Proof.
  intros kr1 kr2.
  assert (kr1 = keyring_Set kr KeychainService deviceID tok) as -> by done.
  assert (forall k other, other <> deviceID ->
            (GetToken None (keyring_Set k KeychainService deviceID tok) other).2
            = (GetToken None k other).2) as Hother.
  { intros k other Hne. unfold GetToken, keyring_Get, keyring_Set. cbn [List.find].
    assert (same_key KeychainService other (KeychainService, deviceID, tok) = false)
      as ->.
    { unfold same_key. cbn [fst snd]. apply andb_false_iff. right.
      apply String.eqb_neq. congruence. }
    by rewrite find_filter_other. }
  assert (kr2 = List.filter (fun entry => negb (same_key KeychainService deviceID entry)) kr)
    as ->.
  { subst kr2. unfold DeleteToken, keyring_Delete, keyring_Set. cbn [List.find].
    unfold same_key at 1. cbn [fst snd]. rewrite !String.eqb_refl. cbn [andb fst].
    cbn [List.filter]. unfold same_key at 1. cbn [fst snd].
    rewrite !String.eqb_refl. cbn [andb negb].
    induction kr as [|entry kr IH]; [done|]. cbn [List.filter].
    destruct (same_key KeychainService deviceID entry) eqn:E; cbn [negb]; [exact IH|].
    cbn [List.filter]. rewrite E. cbn [negb]. by rewrite IH. }
  split; [done|]. split.
  { unfold GetToken. by rewrite keyring_Get_Set. }
  split; [by apply Hother|]. split.
  { unfold DeleteToken, keyring_Delete, keyring_Set. cbn [List.find].
    unfold same_key at 1. cbn [fst snd]. by rewrite !String.eqb_refl. }
  split.
  { unfold GetToken, keyring_Get. by rewrite find_filter_same. }
  split.
  { unfold DeleteToken, keyring_Delete. by rewrite find_filter_same. }
  intros other Hne. unfold GetToken, keyring_Get. by rewrite find_filter_other.
Qed.

(** Instances. *)

Lemma ExchangeCode_keeps_polling_witness :
  (ExchangeCode toy_decode_token
     ([PollStatus 404 "pending"; PollNoResponse "timeout"; PollStatus 500 "oops"]
      ++ [PollStatus 200 "tok-1"; PollStatus 410 "gone"])).2
  = (ExchangeCode toy_decode_token [PollStatus 200 "tok-1"; PollStatus 410 "gone"]).2
  /\ (ExchangeCode toy_decode_token
        [PollStatus 404 "pending"; PollNoResponse "timeout"; PollStatus 500 "oops"]).2
     = None.
Proof.
  apply (ExchangeCode_keeps_polling toy_decode_token
           [PollStatus 404 "pending"; PollNoResponse "timeout"; PollStatus 500 "oops"]
           [PollStatus 200 "tok-1"; PollStatus 410 "gone"]).
  reflexivity.
Defined.

Lemma ExchangeCode_token_origin_witness :
  exists pre body rest,
    [PollStatus 404 "pending"; PollStatus 200 "tok-1"; PollStatus 410 "gone"]
    = pre ++ PollStatus 200 body :: rest
    /\ forallb inconclusive pre = true
    /\ toy_decode_token body = inl "tok-1".
Proof.
  apply (ExchangeCode_token_origin toy_decode_token
           [PollStatus 404 "pending"; PollStatus 200 "tok-1"; PollStatus 410 "gone"]
           "tok-1" None).
  reflexivity.
Defined.


Lemma paired_device_left_alone_witness :
  let r := EnsurePaired toy_format_time paired_answers paired_keyring default_config in
  token r = "tok-1" /\ firstRun r = false /\ err r = None
  /\ keyring_after r = paired_keyring /\ cfg_after r = default_config
  /\ Forall (fun e => match e with ELog _ => True | _ => False end) (effects r).
Proof.
  apply (paired_device_left_alone toy_format_time paired_answers paired_keyring
           default_config "machine-1" "tok-1").
  - reflexivity.
  - reflexivity.
  - reflexivity.
  - discriminate.
Defined.

Lemma error_means_no_token_witness :
  token (EnsurePaired toy_format_time expired_answers [] default_config) = EmptyString
  /\ keyring_after (EnsurePaired toy_format_time expired_answers [] default_config) = []
  /\ (firstRun (EnsurePaired toy_format_time expired_answers [] default_config) = true
      <-> exists id, protectedID expired_answers = inl id).
Proof.
  apply (error_means_no_token toy_format_time expired_answers [] default_config).
  vm_compute. discriminate.
Defined.

Lemma pairing_is_done_once_witness :
  let r := EnsurePaired toy_format_time approved_answers [] default_config in
  let r' := EnsurePaired toy_format_time paired_answers (keyring_after r) default_config in
  token r' = token r /\ firstRun r' = false /\ err r' = None
  /\ keyring_after r' = keyring_after r /\ cfg_after r' = default_config
  /\ Forall (fun e => reaches_out e = false) (effects r').
Proof.
  apply (pairing_is_done_once toy_format_time approved_answers paired_answers []
           default_config default_config).
  - reflexivity.
  - vm_compute. discriminate.
  - reflexivity.
  - reflexivity.
Defined.

End PairingFacts.
